(** * Text-to-SQL workspace: validation, preview and transaction core

    A shallow embedding of the SQL gateway of the backend
    ([app/core/security.py], [app/db/query_validator.py],
    [app/db/transaction_manager.py], [app/db/query_executor.py],
    [app/services/preview_service.py], [app/services/diff_service.py])
    and the properties of its specification.

    Conventions.
    - A Python [str] is a [string]; a character is read as the code point
      of the same number (U+0000 to U+00FF).  The character classes below
      are those of Python's [re] and [str] on that range.
    - A regular expression of the source is written as a term of [Re.re];
      the matcher [Re.run] is a backtracking matcher that tries the
      alternatives in the order of Python's [re] (greedy: longest first,
      lazy: shortest first, [|]: left to right).
    - The database session is an oracle ([Sess.AsyncSession]): every call
      on it answers with a value or raises, and changes the oracle's
      state. *)

From Stdlib Require Import String Ascii List ZArith NArith Lia Bool.
From Stdlib Require Import DecimalString.
From stdpp Require Import gmap strings list sorting.

Local Open Scope string_scope.

(** ** Python's [str] primitives *)

Module PyStr.

Definition code (c : ascii) : N := N_of_ascii c.

Definition between (lo hi n : N) : bool := ((lo <=? n) && (n <=? hi))%N.

(** [str.isspace] on one character, also the class [\s] of [re]. *)
Definition isspace (c : ascii) : bool :=
  let n := code c in
  between 9 13 n || between 28 32 n || (n =? 133)%N || (n =? 160)%N.

(** The class [\w] of [re]: alphanumeric or underscore. *)
Definition isword (c : ascii) : bool :=
  let n := code c in
  between 48 57 n || between 65 90 n || between 97 122 n || (n =? 95)%N
  || (n =? 170)%N || (n =? 178)%N || (n =? 179)%N || (n =? 181)%N
  || (n =? 185)%N || (n =? 186)%N || between 188 190 n
  || between 192 214 n || between 216 246 n || between 248 255 n.

(** Lower case of the letters [A] to [Z].  The patterns of this program
    hold ASCII letters only, and no other character below U+0100 folds
    to an ASCII letter. *)
Definition lower (c : ascii) : ascii :=
  let n := code c in
  if between 65 90 n then ascii_of_N (n + 32) else c.

Definition eqc (a b : ascii) : bool := (code a =? code b)%N.

Fixpoint lower_str (s : string) : string :=
  match s with
  | EmptyString => EmptyString
  | String c t => String (lower c) (lower_str t)
  end.

Fixpoint lstrip (p : ascii -> bool) (s : string) : string :=
  match s with
  | EmptyString => EmptyString
  | String c t => if p c then lstrip p t else s
  end.

Fixpoint rstrip (p : ascii -> bool) (s : string) : string :=
  match s with
  | EmptyString => EmptyString
  | String c t =>
      match rstrip p t with
      | EmptyString => if p c then EmptyString else String c EmptyString
      | t' => String c t'
      end
  end.

(** [s.strip()] *)
Definition strip (s : string) : string := rstrip isspace (lstrip isspace s).

(** [s.rstrip(';')] *)
Definition rstrip_semicolons (s : string) : string := rstrip (eqc ";") s.

(** [s[:n]] *)
Fixpoint slice_to (n : nat) (s : string) : string :=
  match n, s with
  | S n', String c t => String c (slice_to n' t)
  | _, _ => EmptyString
  end.

(** [str(n)] and [f"{n}"] of an [int]. *)
Definition str_of_int (n : Z) : string := NilZero.string_of_int (Z.to_int n).

Definition newline : ascii := ascii_of_N 10.

(** [sep.join(parts)] *)
Fixpoint str_join (sep : string) (parts : list string) : string :=
  match parts with
  | [] => EmptyString
  | [part] => part
  | part :: more => part ++ sep ++ str_join sep more
  end.

End PyStr.

(** ** Python's [re]: patterns and the backtracking matcher *)

Module Re.
Import PyStr.

Record flags := Flags { IGNORECASE : bool; MULTILINE : bool; DOTALL : bool }.

(** One-character classes: [.], [\s], [[^\s]]. *)
Inductive cset := Dot | Space | NotSpace.

Inductive re :=
| Lit (w : string)                       (* literal text *)
| One (c : cset)                         (* one character of a class *)
| Rep (c : cset) (least_one greedy : bool)
    (* c* (false,true)  c+ (true,true)  c*? (false,false)  c+? (true,false) *)
| Opt (r : re)                           (* (?:r)? *)
| Bol                                    (* ^ *)
| Eol                                    (* $ *)
| Wordb                                  (* \b *)
| Seq (r1 r2 : re)
| Alt (r1 r2 : re)                       (* r1|r2 *)
| Grp (n : nat) (r : re).                (* the n-th capturing group *)

Declare Scope re_scope.
Delimit Scope re_scope with re.
Bind Scope re_scope with re.
Infix "·" := Seq (at level 60, right associativity) : re_scope.
Infix "∣" := Alt (at level 70, right associativity) : re_scope.

(** The position of the matcher: the character before it (none at the
    start of the text) and the text from it on. *)
Record cursor := Cursor { prev : option ascii; rest : string }.

Definition caps := list (nat * string).
Definition result := option (caps * cursor).

Definition mem (fl : flags) (c : cset) (x : ascii) : bool :=
  match c with
  | Dot => DOTALL fl || negb (eqc x newline)
  | Space => isspace x
  | NotSpace => negb (isspace x)
  end.

Definition chr_eq (ic : bool) (a x : ascii) : bool :=
  if ic then eqc (lower a) (lower x) else eqc a x.

Definition at_bol (fl : flags) (p : cursor) : bool :=
  match prev p with
  | None => true
  | Some c => MULTILINE fl && eqc c newline
  end.

Definition at_eol (fl : flags) (p : cursor) : bool :=
  match rest p with
  | EmptyString => true
  | String c EmptyString => eqc c newline
  | String c _ => MULTILINE fl && eqc c newline
  end.

Definition word_before (p : cursor) : bool :=
  match prev p with Some c => isword c | None => false end.

Definition word_after (p : cursor) : bool :=
  match rest p with String c _ => isword c | EmptyString => false end.

Definition at_wordb (p : cursor) : bool :=
  negb (Bool.eqb (word_before p) (word_after p)).

Fixpoint lit (ic : bool) (w : string) (k : cursor -> result) (p : cursor)
  : result :=
  match w with
  | EmptyString => k p
  | String a w' =>
      match rest p with
      | String x t => if chr_eq ic a x then lit ic w' k (Cursor (Some x) t) else None
      | EmptyString => None
      end
  end.

(** Greedy repetition: take the character if it is in the class and go
    on; give the continuation the shorter run only when the longer
    one failed. *)
Fixpoint rep_greedy (m : ascii -> bool) (k : cursor -> result)
    (pv : option ascii) (s : string) : result :=
  match s with
  | String x t =>
      if m x then
        match rep_greedy m k (Some x) t with
        | Some r => Some r
        | None => k (Cursor pv s)
        end
      else k (Cursor pv s)
  | EmptyString => k (Cursor pv s)
  end.

(** Lazy repetition: try the continuation first, take one more
    character only when it failed. *)
Fixpoint rep_lazy (m : ascii -> bool) (k : cursor -> result)
    (pv : option ascii) (s : string) : result :=
  match k (Cursor pv s) with
  | Some r => Some r
  | None =>
      match s with
      | String x t => if m x then rep_lazy m k (Some x) t else None
      | EmptyString => None
      end
  end.

Definition set_group (n : nat) (v : string) (g : caps) : caps :=
  (n, v) :: List.filter (fun e => negb (Nat.eqb (fst e) n)) g.

Fixpoint run (fl : flags) (r : re) (k : caps -> cursor -> result)
    (g : caps) (p : cursor) : result :=
  match r with
  | Lit w => lit (IGNORECASE fl) w (k g) p
  | One c =>
      match rest p with
      | String x t => if mem fl c x then k g (Cursor (Some x) t) else None
      | EmptyString => None
      end
  | Rep c least_one greedy =>
      let loop := if greedy then rep_greedy (mem fl c) (k g)
                  else rep_lazy (mem fl c) (k g) in
      if least_one then
        match rest p with
        | String x t => if mem fl c x then loop (Some x) t else None
        | EmptyString => None
        end
      else loop (prev p) (rest p)
  | Opt r' =>
      match run fl r' k g p with
      | Some res => Some res
      | None => k g p
      end
  | Bol => if at_bol fl p then k g p else None
  | Eol => if at_eol fl p then k g p else None
  | Wordb => if at_wordb p then k g p else None
  | Seq r1 r2 => run fl r1 (run fl r2 k) g p
  | Alt r1 r2 =>
      match run fl r1 k g p with
      | Some res => Some res
      | None => run fl r2 k g p
      end
  | Grp n r' =>
      run fl r'
        (fun g' p' =>
           k (set_group n
                (slice_to (String.length (rest p) - String.length (rest p')) (rest p))
                g') p')
        g p
  end.

Definition match_at (fl : flags) (r : re) (p : cursor) : result :=
  run fl r (fun g p' => Some (g, p')) [] p.

(** [re.match(r, s, flags)]: a match at the start of the text. *)
Definition re_match (fl : flags) (r : re) (s : string) : result :=
  match_at fl r (Cursor None s).

Fixpoint search_from (fl : flags) (r : re) (pv : option ascii) (s : string)
  : result :=
  match match_at fl r (Cursor pv s) with
  | Some res => Some res
  | None =>
      match s with
      | String c t => search_from fl r (Some c) t
      | EmptyString => None
      end
  end.

(** [re.search(r, s, flags)]: the leftmost match. *)
Definition re_search (fl : flags) (r : re) (s : string) : result :=
  search_from fl r None s.

(** Truth value of a match object: [None] is false. *)
Definition found (m : result) : bool :=
  match m with Some _ => true | None => false end.

(** [m.group(n)] *)
Definition group (n : nat) (g : caps) : string :=
  match List.find (fun e => Nat.eqb (fst e) n) g with
  | Some e => snd e
  | None => EmptyString
  end.

(** [re.sub(r, repl, s, flags=fl)] for a plain replacement text:
    matches are taken left to right and do not overlap.  [skip] counts
    the characters of the last match still to be passed over.  Every
    pattern this program substitutes matches two characters or more; a
    match of no character leaves the text as it is here. *)
Fixpoint sub_from (fl : flags) (r : re) (repl : string) (skip : nat)
    (pv : option ascii) (s : string) : string :=
  match s with
  | EmptyString => EmptyString
  | String c t =>
      match skip with
      | S n => sub_from fl r repl n (Some c) t
      | O =>
          match match_at fl r (Cursor pv s) with
          | Some (_, p') =>
              match String.length s - String.length (rest p') with
              | S n => repl ++ sub_from fl r repl n (Some c) t
              | O => String c (sub_from fl r repl 0 (Some c) t)
              end
          | None => String c (sub_from fl r repl 0 (Some c) t)
          end
      end
  end.

Definition re_sub (fl : flags) (r : re) (repl s : string) : string :=
  sub_from fl r repl 0 None s.

Definition no_flags : flags := Flags false false false.
Definition I_ : flags := Flags true false false.
Definition M_ : flags := Flags false true false.
Definition S_ : flags := Flags false false true.
Definition IS_ : flags := Flags true false true.

(** *** The patterns as the source writes them

    [compile] reads the raw pattern strings of the source into [re], for
    the constructs this program uses: literals, [\b], [\s], [[^\s]], [.],
    [^], [$], escaped punctuation, groups, [(?:...)], [|], and the
    quantifiers [*], [+], [?] with their lazy forms on one-character
    classes.  Anything else is refused. *)

Inductive quantifier := QStar | QPlus | QOpt.

Inductive token :=
| TChar (c : ascii)
| TClass (c : cset)
| TWordb
| TBol
| TEol
| TOpen (capturing : bool)
| TClose
| TBar
| TQuant (q : quantifier) (greedy : bool).

Definition is_punct (c : ascii) : bool := negb (isword c) && negb (isspace c).

Fixpoint lex (s : string) : option (list token) :=
  match s with
  | EmptyString => Some []
  | String "\" (String c t) =>
      if eqc c "b" then cons TWordb <$> lex t
      else if eqc c "s" then cons (TClass Space) <$> lex t
      else if is_punct c then cons (TChar c) <$> lex t
      else None
  | String "[" (String "^" (String "\" (String "s" (String "]" t)))) =>
      cons (TClass NotSpace) <$> lex t
  | String "(" (String "?" (String ":" t)) => cons (TOpen false) <$> lex t
  | String "(" t => cons (TOpen true) <$> lex t
  | String ")" t => cons TClose <$> lex t
  | String "|" t => cons TBar <$> lex t
  | String "." t => cons (TClass Dot) <$> lex t
  | String "^" t => cons TBol <$> lex t
  | String "$" t => cons TEol <$> lex t
  | String "*" (String "?" t) => cons (TQuant QStar false) <$> lex t
  | String "+" (String "?" t) => cons (TQuant QPlus false) <$> lex t
  | String "*" t => cons (TQuant QStar true) <$> lex t
  | String "+" t => cons (TQuant QPlus true) <$> lex t
  | String "?" t => cons (TQuant QOpt true) <$> lex t
  | String "[" _ | String "]" _ | String "{" _ | String "}" _
  | String "\" _ => None
  | String c t => cons (TChar c) <$> lex t
  end.

(** [r] followed by [r2]; literal text next to literal text is one
    literal. *)
Definition join (r r2 : re) : re :=
  match r, r2 with
  | _, Lit EmptyString => r
  | Lit a, Lit b => Lit (a ++ b)
  | Lit a, Seq (Lit b) r3 => Seq (Lit (a ++ b)) r3
  | _, _ => Seq r r2
  end.

Definition quantified (atom : re) (ts : list token)
  : option (re * list token) :=
  match ts with
  | TQuant q greedy :: ts' =>
      match atom, q, greedy with
      | One c, QStar, _ => Some (Rep c false greedy, ts')
      | One c, QPlus, _ => Some (Rep c true greedy, ts')
      | _, QOpt, true => Some (Opt atom, ts')
      | _, _, _ => None
      end
  | _ => Some (atom, ts)
  end.

(** [n] counts the capturing groups opened so far. *)
Fixpoint parse_alt (fuel n : nat) (ts : list token)
  : option (re * nat * list token) :=
  match fuel with
  | O => None
  | S fuel' =>
      match parse_seq fuel' n ts with
      | Some (r, n1, TBar :: ts1) =>
          match parse_alt fuel' n1 ts1 with
          | Some (r2, n2, ts2) => Some (Alt r r2, n2, ts2)
          | None => None
          end
      | other => other
      end
  end
with parse_seq (fuel n : nat) (ts : list token)
  : option (re * nat * list token) :=
  match fuel with
  | O => None
  | S fuel' =>
      match ts with
      | [] | TBar :: _ | TClose :: _ => Some (Lit EmptyString, n, ts)
      | _ =>
          match parse_item fuel' n ts with
          | Some (r, n1, ts1) =>
              match parse_seq fuel' n1 ts1 with
              | Some (r2, n2, ts2) => Some (join r r2, n2, ts2)
              | None => None
              end
          | None => None
          end
      end
  end
with parse_item (fuel n : nat) (ts : list token)
  : option (re * nat * list token) :=
  match fuel with
  | O => None
  | S fuel' =>
      match ts with
      | TChar c :: ts1 =>
          '(r, ts2) ← quantified (Lit (String c EmptyString)) ts1;
          Some (r, n, ts2)
      | TClass c :: ts1 =>
          '(r, ts2) ← quantified (One c) ts1; Some (r, n, ts2)
      | TWordb :: ts1 => Some (Wordb, n, ts1)
      | TBol :: ts1 => Some (Bol, n, ts1)
      | TEol :: ts1 => Some (Eol, n, ts1)
      | TOpen capturing :: ts1 =>
          let n1 := if capturing then S n else n in
          match parse_alt fuel' n1 ts1 with
          | Some (r, n2, TClose :: ts2) =>
              '(r', ts3) ← quantified (if capturing then Grp n1 r else r) ts2;
              Some (r', n2, ts3)
          | _ => None
          end
      | _ => None
      end
  end.

Definition compile (pattern : string) : option re :=
  ts ← lex pattern;
  match parse_alt (4 * S (length ts)) 0 ts with
  | Some (r, _, []) => Some r
  | _ => None
  end.

End Re.

(** ** [app/core/security.py]: [SQLSecurityValidator] *)

Module SQLSecurityValidator.
Import PyStr Re.
Local Open Scope re_scope.

(** [--.*?$] with [re.MULTILINE] *)
Definition line_comment : re := Lit "--" · Rep Dot false false · Eol.

(** [/\*.*?\*/] with [re.DOTALL] *)
Definition block_comment : re := Lit "/*" · Rep Dot false false · Lit "*/".

(** The two [re.sub] calls that open every method of the class. *)
Definition strip_comments (query : string) : string :=
  let query_clean := re_sub M_ line_comment "" query in
  re_sub S_ block_comment "" query_clean.

(** [\bdrop\s+database\b] *)
Definition drop_database : re :=
  Wordb · Lit "drop" · Rep Space true true · Lit "database" · Wordb.

(** [\btruncate\b] *)
Definition truncate : re := Wordb · Lit "truncate" · Wordb.

(** [;.*?(?:select|insert|update|delete|drop|alter|truncate)] *)
Definition second_statement : re :=
  Lit ";" · Rep Dot false false ·
  (Lit "select" ∣ Lit "insert" ∣ Lit "update" ∣ Lit "delete" ∣ Lit "drop"
   ∣ Lit "alter" ∣ Lit "truncate").

Definition DANGEROUS_PATTERNS : list (re * string) :=
  [ (drop_database, "DROP DATABASE is not allowed");
    (truncate, "TRUNCATE is not allowed");
    (second_statement, "Multiple statements not allowed") ].

(** [^\s*<keyword>\b] *)
Definition leading (keyword : string) : re :=
  Bol · Rep Space false true · Lit keyword · Wordb.

Definition QUERY_PATTERNS : list (string * re) :=
  [ ("SELECT", leading "select");
    ("INSERT", leading "insert");
    ("UPDATE", leading "update");
    ("DELETE", leading "delete");
    ("ALTER", leading "alter") ].

(** [\bwhere\b] *)
Definition where_kw : re := Wordb · Lit "where" · Wordb.

(** [\blimit\b] *)
Definition limit_kw : re := Wordb · Lit "limit" · Wordb.

(** [\b(union|intersect|except)\b] *)
Definition compound_kw : re :=
  Wordb · Grp 1 (Lit "union" ∣ Lit "intersect" ∣ Lit "except") · Wordb.

(** The loop of [validate_query] over the remaining patterns. *)
Fixpoint first_dangerous (patterns : list (re * string)) (query_clean : string)
  : option string :=
  match patterns with
  | [] => None
  | (pattern, message) :: more =>
      if found (re_search I_ pattern query_clean) then Some message
      else first_dangerous more query_clean
  end.

Definition validate_query (query : string) : bool * option string :=
  let query_clean := strip_comments query in
  match first_dangerous DANGEROUS_PATTERNS query_clean with
  | Some message => (false, Some message)
  | None => (true, None)
  end.

Definition require_where_for_delete (query : string) : bool * option string :=
  let query_clean := strip_comments query in
  if found (re_search I_ (leading "delete") query_clean) then
    if negb (found (re_search I_ where_kw query_clean)) then
      (false, Some "DELETE statements must include a WHERE clause")
    else (true, None)
  else (true, None).

Definition inject_limit_to_select (query : string) (limit : Z) : string :=
  let query_clean := strip_comments query in
  if found (re_search I_ (leading "select") query_clean) then
    if negb (found (re_search I_ limit_kw query_clean)) then
      if found (re_search I_ compound_kw query_clean) then
        "(" ++ query ++ ") LIMIT " ++ str_of_int limit
      else
        rstrip_semicolons query ++ " LIMIT " ++ str_of_int limit
    else query
  else query.

(** The loop of [get_query_type] over the remaining entries. *)
Fixpoint first_type (patterns : list (string * re)) (query_clean : string)
  : option string :=
  match patterns with
  | [] => None
  | (query_type, pattern) :: more =>
      if found (re_search I_ pattern query_clean) then Some query_type
      else first_type more query_clean
  end.

Definition get_query_type (query : string) : option string :=
  first_type QUERY_PATTERNS (strip_comments query).

End SQLSecurityValidator.

(** ** [app/db/query_validator.py]: [QueryValidator] *)

Module QueryValidator.
Import SQLSecurityValidator.

Definition validate_generated_query (query : string)
  : bool * option string * option string :=
  let '(is_safe, error) := validate_query query in
  if negb is_safe then (false, error, None)
  else
    let '(is_safe, error) := require_where_for_delete query in
    if negb is_safe then (false, error, None)
    else
      match get_query_type query with
      | None => (false, Some "Could not determine query type", None)
      | Some query_type =>
          (* the text with the limit is bound to the local name [query]
             and is not part of the value returned *)
          let query :=
            if String.eqb query_type "SELECT"
            then inject_limit_to_select query 100 else query in
          (true, None, Some query_type)
      end.

Definition validate_preview_query (query : string) : bool * option string :=
  let '(is_safe, error) := validate_query query in
  if negb is_safe then (false, error) else (true, None).

Definition is_write_query (query_type : option string) : bool :=
  match query_type with
  | Some t => existsb (String.eqb t) ["INSERT"; "UPDATE"; "DELETE"; "ALTER"]
  | None => false
  end.

Definition is_read_query (query_type : option string) : bool :=
  match query_type with
  | Some t => String.eqb t "SELECT"
  | None => false
  end.

End QueryValidator.

(** ** The database session

    [AsyncSession] of SQLAlchemy, seen from this program: an oracle with
    a state of its own.  Every call answers with a value or raises, and
    moves the state.  What is raised is an exception of class
    [Exception], carrying its message, or an exception that is not one
    ([asyncio.CancelledError], [KeyboardInterrupt], [SystemExit]: a
    [BaseException] that [except Exception] does not catch).  The calls
    made are recorded in a log. *)

Module Sess.

Inductive outcome (A : Type) : Type :=
| Returns (a : A)
| Raises (message : string)        (* an [Exception] *)
| RaisesBase (message : string).   (* a [BaseException] that is not one *)
Arguments Returns {A} a.
Arguments Raises {A} message.
Arguments RaisesBase {A} message.

Inductive call :=
| Execute (query : string)      (* await session.execute(text(query)) *)
| Fetchall                      (* result.fetchall() *)
| Rowcount                      (* result.rowcount *)
| Commit                        (* await session.commit() *)
| Rollback.                     (* await session.rollback() *)

Record event := Event { what : call; raised : bool }.

(** [row] is the content of a [Row], as [dict(row._mapping)] gives it. *)
Record AsyncSession := {
  world : Type;
  handle : Type;
  row : Type;
  on_execute : string -> world -> world * outcome handle;
  on_fetchall : handle -> world -> world * outcome (list row);
  on_rowcount : handle -> world -> world * outcome Z;
  on_commit : world -> world * outcome unit;
  on_rollback : world -> world * outcome unit
}.

Section Monad.
Context (session : AsyncSession).

(** A computation on the session: from the state of the oracle and
    the log so far to the new ones and a value or an exception. *)
Definition M (A : Type) : Type :=
  world session * list event -> world session * list event * outcome A.

Definition ret {A} (a : A) : M A := fun s => (s, Returns a).

Definition bind {A B} (m : M A) (f : A -> M B) : M B :=
  fun s =>
    match m s with
    | (s', Returns a) => f a s'
    | (s', Raises e) => (s', Raises e)
    | (s', RaisesBase e) => (s', RaisesBase e)
    end.

(** [try: body except Exception as e: handler(e)]: an exception that is
    not an [Exception] goes through. *)
Definition try_except {A} (body : M A) (handler : string -> M A) : M A :=
  fun s =>
    match body s with
    | (s', Returns a) => (s', Returns a)
    | (s', Raises e) => handler e s'
    | (s', RaisesBase e) => (s', RaisesBase e)
    end.

Definition failed {A} (o : outcome A) : bool :=
  match o with Returns _ => false | Raises _ | RaisesBase _ => true end.

Definition ask {A} (c : call)
    (f : world session -> world session * outcome A) : M A :=
  fun '(w, log) =>
    let '(w', o) := f w in (w', (log ++ [Event c (failed o)])%list, o).

Definition execute (query : string) : M (handle session) :=
  ask (Execute query) (on_execute session query).
Definition fetchall (result : handle session) : M (list (row session)) :=
  ask Fetchall (on_fetchall session result).
Definition rowcount (result : handle session) : M Z :=
  ask Rowcount (on_rowcount session result).
Definition commit : M unit := ask Commit (on_commit session).
Definition rollback : M unit := ask Rollback (on_rollback session).

(** One call of an [async def] on a session in state [w], with an
    empty log. *)
Definition invoke {A} (m : M A) (w : world session)
  : world session * list event * outcome A := m (w, []).

Definition log_of {A} (r : world session * list event * outcome A)
  : list event := snd (fst r).
Definition answer {A} (r : world session * list event * outcome A)
  : outcome A := snd r.
End Monad.

Arguments ret {session A} a.
Arguments bind {session A B} m f.
Arguments try_except {session A} body handler.
Arguments invoke {session A} m w.
Arguments log_of {session A} r.
Arguments answer {session A} r.

Definition committed (e : event) : bool :=
  match what e with Commit => negb (raised e) | _ => false end.
Definition rolled_back (e : event) : bool :=
  match what e with Rollback => negb (raised e) | _ => false end.
Definition is_commit (e : event) : bool :=
  match what e with Commit => true | _ => false end.
Definition is_statement (e : event) : bool :=
  match what e with Execute _ => true | _ => false end.

Definition count (p : event -> bool) (log : list event) : nat :=
  length (List.filter p log).

End Sess.

Notation "'let*' x ':=' m 'in' k" := (Sess.bind m (fun x => k))
  (at level 10, x name, m at level 100, k at level 200, only parsing).
Notation "'let*' ' pat ':=' m 'in' k" :=
  (Sess.bind m (fun x => match x with pat => k end))
  (at level 10, pat pattern, m at level 100, k at level 200, only parsing).
Notation "'do*' m 'in' k" := (Sess.bind m (fun _ => k))
  (at level 10, m at level 100, k at level 200, only parsing).

(** Values of the dictionaries the executor answers with. *)
Inductive pyval (R : Type) : Type :=
| PNone
| PBool (b : bool)
| PInt (n : Z)
| PStr (s : string)
| PRows (rows : list R).
Arguments PNone {R}.
Arguments PBool {R} b.
Arguments PInt {R} n.
Arguments PStr {R} s.
Arguments PRows {R} rows.

(** [Optional[str]] as a value: [None] or the text. *)
Definition opt_str {R} (o : option string) : pyval R :=
  match o with Some s => PStr s | None => PNone end.

(** A dictionary written as a literal: its items in the order written. *)
Definition dict (R : Type) : Type := list (string * pyval R).

Definition get {R} (d : dict R) (key : string) : option (pyval R) :=
  snd <$> List.find (fun e => String.eqb (fst e) key) d.

(** ** [app/db/transaction_manager.py]: [TransactionManager] *)

Module TransactionManager.
Import PyStr Re Sess.
Local Open Scope re_scope.

(** The second component of the tuples returned: rows, a count, or
    [None]. *)
Inductive any (R : Type) : Type :=
| Rows (rows : list R)
| Count (n : Z)
| Nothing.
Arguments Rows {R} rows.
Arguments Count {R} n.
Arguments Nothing {R}.

Section Async.
Context (session : AsyncSession).
Local Abbreviation R := (row session).

Definition execute_with_transaction (query : string)
  : M session (bool * any R * option string) :=
  try_except
    (let* result := execute session query in
     try_except
       (let* rows := fetchall session result in
        do* commit session in
        ret (true, Rows rows, None))
       (fun _ =>
          let* rows_affected := rowcount session result in
          do* commit session in
          ret (true, Count rows_affected, None)))
    (fun e =>
       do* rollback session in
       let error_msg := e in
       ret (false, Nothing, Some error_msg)).

Definition execute_read_only (query : string)
  : M session (bool * any R * option string) :=
  try_except
    (let* result := execute session query in
     let* rows := fetchall session result in
     ret (true, Rows rows, None))
    (fun e =>
       let error_msg := e in
       ret (false, Nothing, Some error_msg)).

Definition execute_preview_query (query : string)
  : M session (bool * Z * option string) :=
  try_except
    (let* result := execute session query in
     let* rows := fetchall session result in
     let affected_rows := Z.of_nat (length rows) in
     ret (true, affected_rows, None))
    (fun e =>
       let error_msg := e in
       ret (false, 0%Z, Some error_msg)).
End Async.

(** [UPDATE\s+([^\s]+).*?WHERE\s+(.+?)(?:;)?$] *)
Definition update_where : re :=
  Lit "UPDATE" · Rep Space true true · Grp 1 (Rep NotSpace true true) ·
  Rep Dot false false · Lit "WHERE" · Rep Space true true ·
  Grp 2 (Rep Dot true false) · Opt (Lit ";") · Eol.

(** [^UPDATE\b] *)
Definition update_head : re := Bol · Lit "UPDATE" · Wordb.

(** [SET\s+.*?\s+WHERE] *)
Definition set_where : re :=
  Lit "SET" · Rep Space true true · Rep Dot false false ·
  Rep Space true true · Lit "WHERE".

(** [^DELETE\s+FROM\b] *)
Definition delete_from : re :=
  Bol · Lit "DELETE" · Rep Space true true · Lit "FROM" · Wordb.

Definition convert_update_to_select (query : string) : string :=
  match re_match IS_ update_where query with
  | Some (g, _) =>
      let table_name := strip (group 1 g) in
      let where_clause := strip (group 2 g) in
      "SELECT * FROM " ++ table_name ++ " WHERE " ++ where_clause
  | None =>
      let query_modified := re_sub I_ update_head "SELECT *" query in
      re_sub IS_ set_where " WHERE" query_modified
  end.

Definition convert_delete_to_select (query : string) : string :=
  re_sub I_ delete_from "SELECT * FROM" query.

End TransactionManager.

(** ** [app/db/query_executor.py]: [QueryExecutor] *)

Module QueryExecutor.
Import Sess QueryValidator TransactionManager.

Section Async.
Context (session : AsyncSession).
Local Abbreviation R := (row session).

(** [query_type == name] *)
Definition is_type (query_type : option string) (name : string) : bool :=
  match query_type with Some t => String.eqb t name | None => false end.

Definition execute_query (query : string) : M session (dict R) :=
  let '(is_valid, error, query_type) := validate_generated_query query in
  if negb is_valid then
    ret [ ("success", PBool false); ("error", opt_str error);
          ("query_type", PNone); ("affected_rows", PInt 0);
          ("data", PNone) ]
  else if is_type query_type "SELECT" then
    let* '(success, result, error) := execute_read_only session query in
    if (success : bool) then
      let rows := match result with Rows rs => rs | _ => [] end in
      ret [ ("success", PBool true); ("query_type", opt_str query_type);
            ("data", PRows rows);
            ("rows_returned", PInt (Z.of_nat (length rows)));
            ("error", PNone) ]
    else
      ret [ ("success", PBool false); ("query_type", opt_str query_type);
            ("error", opt_str error); ("data", PNone);
            ("rows_returned", PInt 0) ]
  else
    let* '(success, rows_affected, error) :=
      execute_with_transaction session query in
    if (success : bool) then
      ret [ ("success", PBool true); ("query_type", opt_str query_type);
            ("affected_rows",
             PInt (match rows_affected with Count n => n | _ => 0%Z end));
            ("error", PNone) ]
    else
      ret [ ("success", PBool false); ("query_type", opt_str query_type);
            ("error", opt_str error); ("affected_rows", PInt 0) ].

Definition preview_query (query : string) : M session (dict R) :=
  let '(is_valid, error) := validate_preview_query query in
  if negb is_valid then
    ret [ ("success", PBool false); ("error", opt_str error);
          ("preview_rows", PRows []); ("affected_rows", PInt 0) ]
  else
    let query_type := snd (validate_generated_query query) in
    let preview_query :=
      if is_type query_type "UPDATE" then convert_update_to_select query
      else if is_type query_type "DELETE" then convert_delete_to_select query
      else query in
    let* '(success, affected_rows, error) :=
      execute_preview_query session preview_query in
    if (success : bool) then
      try_except
        (let* result := execute session preview_query in
         let* rows := fetchall session result in
         let preview_data := firstn 100 rows in
         ret [ ("success", PBool true); ("query_type", opt_str query_type);
               ("preview_rows", PRows preview_data);
               ("affected_rows", PInt affected_rows);
               ("error", PNone) ])
        (fun e =>
           ret [ ("success", PBool false);
                 ("query_type", opt_str query_type);
                 ("error", PStr e); ("preview_rows", PRows []);
                 ("affected_rows", PInt 0) ])
    else
      ret [ ("success", PBool false); ("query_type", opt_str query_type);
            ("error", opt_str error); ("preview_rows", PRows []);
            ("affected_rows", PInt 0) ].
End Async.

End QueryExecutor.

(** ** [app/services/preview_service.py]: [PreviewService] *)

Module PreviewService.
Import PyStr Re Sess SQLSecurityValidator.
Local Open Scope re_scope.

(** [LIMIT\b] *)
Definition limit_word : re := Lit "LIMIT" · Wordb.

(** [\b(UNION|INTERSECT|EXCEPT)\b] *)
Definition compound_word : re :=
  Wordb · Grp 1 (Lit "UNION" ∣ Lit "INTERSECT" ∣ Lit "EXCEPT") · Wordb.

(** The text [preview_with_limit] hands to the executor. *)
Definition with_limit (query : string) (limit : Z) : string :=
  if negb (found (re_search I_ limit_word query)) then
    if found (re_search I_ compound_word query) then
      "(" ++ query ++ ") LIMIT " ++ str_of_int limit
    else
      rstrip_semicolons query ++ " LIMIT " ++ str_of_int limit
  else query.

Section Async.
Context (session : AsyncSession).
Local Abbreviation R := (row session).

Definition failure (e : string) : dict R :=
  [ ("success", PBool false); ("error", PStr e);
    ("preview_rows", PRows []); ("affected_rows", PInt 0) ].

Definition preview_query (query : string) : M session (dict R) :=
  try_except
    (let* result := QueryExecutor.preview_query session query in
     ret result)
    (fun e => ret (failure e)).

Definition preview_with_limit (query : string) (limit : Z)
  : M session (dict R) :=
  try_except
    (let query := with_limit query limit in
     let* result := QueryExecutor.preview_query session query in
     ret result)
    (fun e => ret (failure e)).
End Async.

End PreviewService.

(** ** [app/services/diff_service.py]: [DiffService]

    A row is a [Dict[str, Any]]: a finite map from column names to
    values.  [V] stands for the values with the equality [==] of Python;
    they are hashable, as the members of the tuples put in a [set] must
    be. *)

Module DiffService.

Section Rows.
Context {V : Type} `{Countable V}.

Local Abbreviation row := (gmap string V).
Local Abbreviation item := (string * V)%type.

(** The order of [sorted] on the items of one dictionary: its keys are
distinct, so the comparison of two tuples is that of their keys. *)
Definition item_le (a b : item) : Prop := String.le (fst a) (fst b).

#[local] Instance item_le_dec : RelDecision item_le.
Proof. intros a b. unfold item_le. apply _. Defined.

(** [tuple(sorted(row.items()))] *)
Definition row_tuple (r : row) : list item :=
merge_sort item_le (map_to_list r).

Record row_diff := RowDiff {
rows_added : nat;
rows_removed : nat;
rows_unchanged : nat;
added_rows : list row;
removed_rows : list row
}.

Definition calculate_row_diff (before_rows after_rows : list row) : row_diff :=
let before_set : gset (list item) := list_to_set (row_tuple <$> before_rows) in
let after_set : gset (list item) := list_to_set (row_tuple <$> after_rows) in
let added := elements (after_set ∖ before_set) in
let removed := elements (before_set ∖ after_set) in
{| rows_added := length added;
 rows_removed := length removed;
 rows_unchanged := size (before_set ∩ after_set);
 added_rows := (fun t => list_to_map t) <$> firstn 10 added;
 removed_rows := (fun t => list_to_map t) <$> firstn 10 removed |}.

Record column_change := ColumnChange {
before : list V;
after : list V;
changed : bool
}.

(** [[row.get(column) for row in rows if column in row]] *)
Definition values_of (column : string) (rows : list row) : list V :=
omap (fun r : row => r !! column) rows.

(** The body of the loop [for column in all_columns]. *)
Definition note_column (before_rows after_rows : list row)
(changes : gmap string column_change) (column : string)
: gmap string column_change :=
let before_values := values_of column before_rows in
let after_values := values_of column after_rows in
if bool_decide (before_values ≠ after_values) then
<[ column := {| before := firstn 5 before_values;
                after := firstn 5 after_values;
                changed := true |} ]> changes
else changes.

Definition compare_column_changes (before_rows after_rows : list row)
: gmap string column_change :=
let changes : gmap string column_change := ∅ in
match before_rows, after_rows with
| [], _ | _, [] => changes
| _, _ =>
  let all_columns : gset string :=
    foldl (fun acc (r : row) => acc ∪ dom r) ∅
          (before_rows ++ after_rows)%list in
  foldl (note_column before_rows after_rows) changes
        (elements all_columns)
end.

End Rows.

(** [summary_parts.append(part)] when [condition] holds. *)
Definition append_if (condition : bool) (part : string)
    (summary_parts : list string) : list string :=
  if condition then (summary_parts ++ [part])%list else summary_parts.

Definition generate_diff_summary (rows_added rows_removed rows_modified : Z)
  : string :=
  let summary_parts : list string := [] in
  let summary_parts :=
    append_if (0 <? rows_added)%Z
      ("+" ++ PyStr.str_of_int rows_added ++ " rows added") summary_parts in
  let summary_parts :=
    append_if (0 <? rows_removed)%Z
      ("-" ++ PyStr.str_of_int rows_removed ++ " rows removed") summary_parts in
  let summary_parts :=
    append_if (0 <? rows_modified)%Z
      ("~" ++ PyStr.str_of_int rows_modified ++ " rows modified") summary_parts in
  match summary_parts with
  | [] => "No changes"
  | _ => PyStr.str_join ", " summary_parts
  end.

End DiffService.

(** ** Notions used to state the properties *)

Module Notions.
Import PyStr Re SQLSecurityValidator.

(** The character before the position reached after reading [s]. *)
Fixpoint last_of (pv : option ascii) (s : string) : option ascii :=
  match s with
  | EmptyString => pv
  | String c t => last_of (Some c) t
  end.

(** Every character of [s] is in the class [m]. *)
Fixpoint all_in (m : ascii -> bool) (s : string) : bool :=
  match s with
  | EmptyString => true
  | String c t => m c && all_in m t
  end.

(** [s] is empty or its first character is outside the class [m]. *)
Definition stops (m : ascii -> bool) (s : string) : bool :=
  match s with
  | EmptyString => true
  | String c _ => negb (m c)
  end.

(** The position after the longest run of characters of the class [m]. *)
Fixpoint skip (m : ascii -> bool) (pv : option ascii) (s : string) : cursor :=
  match s with
  | String x t => if m x then skip m (Some x) t else Cursor pv s
  | EmptyString => Cursor pv s
  end.

(** The continuation fails at every position inside [pre]. *)
Fixpoint fails_along (k : cursor -> result) (pv : option ascii)
    (pre t : string) : Prop :=
  match pre with
  | EmptyString => True
  | String x pre' =>
      k (Cursor pv (String x (pre' ++ t))) = None /\ fails_along k (Some x) pre' t
  end.

(** What is left of [^\s*keyword\b] once the leading white space is
    passed: the keyword, then a word boundary. *)
Definition keyword_here (keyword : string) (p : cursor) : result :=
  lit true keyword (fun p' => if at_wordb p' then Some ([], p') else None) p.

(** The comment-stripped text of [query] has a match of [r], letter case
    ignored: the test every method of [SQLSecurityValidator] makes. *)
Definition mentions (r : re) (query : string) : bool :=
  found (re_search I_ r (strip_comments query)).

(** [query] passes the scan of [DANGEROUS_PATTERNS]. *)
Definition passes_denylist (query : string) : Prop :=
  validate_query query = (true, None).

(** [s] starts with [w]. *)
Fixpoint starts_with (w s : string) : bool :=
  match w, s with
  | EmptyString, _ => true
  | String a w', String x s' => eqc a x && starts_with w' s'
  | _, _ => false
  end.

(** [w in s] of Python. *)
Fixpoint str_in (w s : string) : bool :=
  starts_with w s ||
  match s with
  | EmptyString => false
  | String _ s' => str_in w s'
  end.

(** [s] starts with [w], letter case ignored. *)
Fixpoint starts_ci (w s : string) : bool :=
  match w, s with
  | EmptyString, _ => true
  | String a w', String x s' => eqc (lower a) (lower x) && starts_ci w' s'
  | _, _ => false
  end.

(** The offset of the first occurrence of [w] in [s], letter case
    ignored. *)
Fixpoint find_ci (w s : string) : option nat :=
  if starts_ci w s then Some 0
  else match s with
       | EmptyString => None
       | String _ s' => option_map S (find_ci w s')
       end.

(** [s] consists of white space, one character at least. *)
Definition blank (s : string) : bool :=
  negb (String.eqb s "") && all_in isspace s.

(** [s] is a token: one character at least, none of them white space. *)
Definition token (s : string) : bool :=
  negb (String.eqb s "") && all_in (fun c => negb (isspace c)) s.

(** [s] is not empty, has no white space at either end and no semicolon
    at its end. *)
Definition trimmed (s : string) : bool :=
  negb (String.eqb s "") && String.eqb (strip s) s
  && String.eqb (rstrip_semicolons s) s.

(** A computation on the session keeps [P] when every call it records
    satisfies [P], given that the calls recorded before do. *)
Definition keeps (session : Sess.AsyncSession) (P : Sess.event -> Prop)
    {A : Type} (m : Sess.M session A) : Prop :=
  forall s, Forall P (snd s) -> Forall P (snd (fst (m s))).

(** A session that runs every statement and of which the first commit
    raises; the state counts the commits asked for.  A later commit
    returns when [retry_succeeds], and raises an error of its own
    otherwise. *)
Definition commit_fails_first (retry_succeeds : bool) : Sess.AsyncSession :=
  {| Sess.world := nat;
     Sess.handle := unit;
     Sess.row := Z;
     Sess.on_execute := fun _ w => (w, Sess.Returns tt);
     Sess.on_fetchall := fun _ w => (w, Sess.Returns [42%Z]);
     Sess.on_rowcount := fun _ w => (w, Sess.Returns 1%Z);
     Sess.on_commit := fun w =>
       (S w, match w with
             | O => Sess.Raises "deferred constraint violated"
             | S _ =>
                 if retry_succeeds then Sess.Returns tt
                 else Sess.Raises "This transaction is inactive"
             end);
     Sess.on_rollback := fun w => (w, Sess.Returns tt) |}.

(** The calls of a preview: statements sent and rows fetched. *)
Definition reads_only (e : Sess.event) : Prop :=
  match Sess.what e with
  | Sess.Execute _ | Sess.Fetchall => True
  | _ => False
  end.

(** No call of the log asks for a commit or a rollback. *)
Definition no_commit (log : list Sess.event) : Prop :=
  Forall (fun e => Sess.what e <> Sess.Commit /\ Sess.what e <> Sess.Rollback) log
  /\ Sess.count Sess.is_commit log = 0.

(** The keywords the batching guard looks for after a semicolon. *)
Definition statement_keywords : list string :=
  ["select"; "insert"; "update"; "delete"; "drop"; "alter"; "truncate"].

(** The characters [.] matches without [re.DOTALL]. *)
Definition same_line (c : ascii) : bool := negb (eqc c newline).

(** The offset of the first occurrence of [w] in [s]: [s.find(w)], with
    [None] for -1. *)
Fixpoint find_str (w s : string) : option nat :=
  if starts_with w s then Some 0
  else match s with
       | EmptyString => None
       | String _ s' => option_map S (find_str w s')
       end.

(** [t] is what is left of [s] after some of its characters. *)
Definition suffix_of (t s : string) : Prop := exists u, s = u ++ t.

(** Every statement the log sends to the session is [text]. *)
Definition sends_only (text : string) (log : list Sess.event) : Prop :=
  Forall (fun e => forall s, Sess.what e = Sess.Execute s -> s = text) log.

End Notions.

(** * Properties *)

Import PyStr Re Notions.
Import SQLSecurityValidator QueryValidator.
Import Sess TransactionManager DiffService.

(** ** The patterns *)

(** Every pattern of the model is the reading of the raw string the
    source gives to [re]. *)
Lemma patterns_as_written :
  compile "--.*?$" = Some line_comment
  /\ compile "/\*.*?\*/" = Some block_comment
  /\ compile "\bdrop\s+database\b" = Some drop_database
  /\ compile "\btruncate\b" = Some truncate
  /\ compile ";.*?(?:select|insert|update|delete|drop|alter|truncate)"
     = Some second_statement
  /\ compile "^\s*select\b" = Some (leading "select")
  /\ compile "^\s*insert\b" = Some (leading "insert")
  /\ compile "^\s*update\b" = Some (leading "update")
  /\ compile "^\s*delete\b" = Some (leading "delete")
  /\ compile "^\s*alter\b" = Some (leading "alter")
  /\ compile "\bwhere\b" = Some where_kw
  /\ compile "\blimit\b" = Some limit_kw
  /\ compile "\b(union|intersect|except)\b" = Some compound_kw
  /\ compile "UPDATE\s+([^\s]+).*?WHERE\s+(.+?)(?:;)?$" = Some update_where
  /\ compile "^UPDATE\b" = Some update_head
  /\ compile "SET\s+.*?\s+WHERE" = Some set_where
  /\ compile "^DELETE\s+FROM\b" = Some delete_from
  /\ compile "LIMIT\b" = Some PreviewService.limit_word
  /\ compile "\b(UNION|INTERSECT|EXCEPT)\b" = Some PreviewService.compound_word.
Proof. vm_compute. repeat split. Qed.

(** ** Characters and strings *)

Ltac each_char c :=
  destruct c as [[] [] [] [] [] [] [] []]; vm_compute; try reflexivity;
  try discriminate; try tauto.

Lemma eqc_refl (a : ascii) : eqc a a = true.
Proof. unfold eqc. apply N.eqb_refl. Qed.

Lemma eqc_true (a b : ascii) : eqc a b = true -> a = b.
Proof.
  unfold eqc, code. intros E. apply N.eqb_eq in E.
  rewrite <- (ascii_N_embedding a), <- (ascii_N_embedding b). now rewrite E.
Qed.

Lemma isword_lower (c : ascii) : isword (lower c) = isword c.
Proof. each_char c. Qed.

Lemma isspace_lower (c : ascii) : isspace (lower c) = isspace c.
Proof. each_char c. Qed.

Lemma isspace_not_word (c : ascii) : isspace c = true -> isword c = false.
Proof. each_char c. Qed.

Lemma app_cons (c : ascii) (s t : string) : String c s ++ t = String c (s ++ t).
Proof. reflexivity. Qed.

Lemma app_empty_l (t : string) : "" ++ t = t.
Proof. reflexivity. Qed.

Lemma app_empty_r (s : string) : s ++ "" = s.
Proof. induction s as [|c s IH]; [reflexivity|]. now rewrite app_cons, IH. Qed.

Lemma app_assoc_str (s t u : string) : (s ++ t) ++ u = s ++ t ++ u.
Proof. induction s as [|c s IH]; [reflexivity|]. now rewrite !app_cons, IH. Qed.

Lemma length_app_str (s t : string) :
  String.length (s ++ t) = String.length s + String.length t.
Proof.
  induction s as [|c s IH]; [reflexivity|]. rewrite app_cons. simpl.
  now rewrite IH.
Qed.

Lemma slice_app_exact (s t : string) :
  slice_to (String.length (s ++ t) - String.length t) (s ++ t) = s.
Proof.
  rewrite length_app_str.
  replace (String.length s + String.length t - String.length t)
    with (String.length s) by lia.
  induction s as [|c s IH]; simpl.
  - now destruct t.
  - now rewrite IH.
Qed.

Lemma last_of_app (pv : option ascii) (s t : string) :
  last_of pv (s ++ t) = last_of (last_of pv s) t.
Proof.
  revert pv. induction s as [|c s IH]; intros pv; [reflexivity|].
  rewrite app_cons. simpl. apply IH.
Qed.

Lemma lstrip_split (m : ascii -> bool) (s : string) :
  exists ws, s = ws ++ lstrip m s /\ all_in m ws = true.
Proof.
  induction s as [|c s [ws [E A]]]; simpl.
  - now exists "".
  - destruct (m c) eqn:Mc.
    + exists (String c ws). rewrite app_cons, <- E. simpl. now rewrite Mc, A.
    + now exists "".
Qed.

Lemma lstrip_stops (m : ascii -> bool) (s : string) : stops m (lstrip m s) = true.
Proof.
  induction s as [|c s IH]; simpl; [reflexivity|].
  destruct (m c) eqn:Mc; [exact IH|]. simpl. now rewrite Mc.
Qed.

Lemma lstrip_id (m : ascii -> bool) (s : string) : stops m s = true -> lstrip m s = s.
Proof. destruct s as [|c s]; simpl; [reflexivity|]. now destruct (m c). Qed.

(** ** The matcher *)

Lemma lit_ci (w : string) : forall (u t : string) (pv : option ascii) k,
  lower_str u = lower_str w ->
  lit true w k (Cursor pv (u ++ t)) = k (Cursor (last_of pv u) t).
Proof.
  induction w as [|a w IH]; intros [|x u] t pv k E; simpl in E; try discriminate.
  - reflexivity.
  - injection E as Ex Eu. rewrite app_cons. simpl.
    unfold chr_eq. rewrite Ex, eqc_refl. now apply IH.
Qed.

Lemma rep_greedy_skip (m : ascii -> bool) (k : cursor -> result) :
  (forall pv x t, m x = true -> k (Cursor pv (String x t)) = None) ->
  forall s pv, rep_greedy m k pv s = k (skip m pv s).
Proof.
  intros Hk. induction s as [|x t IH]; intros pv; simpl; [reflexivity|].
  destruct (m x) eqn:Mx; [|reflexivity].
  rewrite IH, (Hk pv x t Mx). now destruct (k (skip m (Some x) t)).
Qed.

Lemma rep_greedy_max (m : ascii -> bool) (k : cursor -> result) r :
  forall s pv, k (skip m pv s) = Some r -> rep_greedy m k pv s = Some r.
Proof.
  induction s as [|x t IH]; intros pv E; simpl in *; [exact E|].
  destruct (m x); [|exact E]. now rewrite (IH _ E).
Qed.

Lemma skip_app (m : ascii -> bool) (ws t : string) (pv : option ascii) :
  all_in m ws = true -> stops m t = true ->
  skip m pv (ws ++ t) = Cursor (last_of pv ws) t.
Proof.
  revert pv. induction ws as [|c ws IH]; intros pv A St.
  - rewrite app_empty_l. simpl. destruct t as [|x t]; [reflexivity|].
    simpl in *. now destruct (m x).
  - simpl in A. apply andb_prop in A as [Mc A]. rewrite app_cons. simpl.
    rewrite Mc. now apply IH.
Qed.

Lemma skip_lstrip (m : ascii -> bool) (s : string) (pv : option ascii) :
  rest (skip m pv s) = lstrip m s.
Proof.
  revert pv. induction s as [|c s IH]; intros pv; simpl; [reflexivity|].
  destruct (m c); [apply IH | reflexivity].
Qed.

Lemma rep_lazy_first (m : ascii -> bool) (k : cursor -> result) r :
  forall pre t pv,
    all_in m pre = true ->
    fails_along k pv pre t ->
    k (Cursor (last_of pv pre) t) = Some r ->
    rep_lazy m k pv (pre ++ t) = Some r.
Proof.
  induction pre as [|x pre IH]; intros t pv A F E.
  - rewrite app_empty_l. simpl in E. destruct t; simpl; now rewrite E.
  - simpl in A. apply andb_prop in A as [Mx A]. destruct F as [F1 F2].
    rewrite app_cons. simpl. rewrite F1, Mx. now apply IH.
Qed.

Lemma found_search_at (fl : flags) (r : re) : forall pre t pv,
  found (match_at fl r (Cursor (last_of pv pre) t)) = true ->
  found (search_from fl r pv (pre ++ t)) = true.
Proof.
  induction pre as [|c pre IH]; intros t pv E.
  - rewrite app_empty_l. simpl in E.
    destruct t; simpl; destruct (match_at fl r _); try reflexivity; discriminate.
  - rewrite app_cons. simpl.
    destruct (match_at fl r (Cursor pv _)) eqn:M0; [reflexivity|].
    now apply IH.
Qed.

(** A pattern that opens with [^] and is used without [re.MULTILINE]
    matches at the start of the text or nowhere. *)
Lemma search_anchored (fl : flags) (r : re) (s : string) :
  MULTILINE fl = false ->
  re_search fl (Seq Bol r) s = match_at fl (Seq Bol r) (Cursor None s).
Proof.
  intros Hm. unfold re_search.
  assert (N : forall t c, search_from fl (Seq Bol r) (Some c) t = None).
  { induction t as [|x t IH]; intros c; simpl;
      unfold match_at; simpl; unfold at_bol; simpl; rewrite Hm; simpl;
      [reflexivity | apply IH]. }
  destruct s as [|x t]; simpl.
  - now destruct (match_at fl (Seq Bol r) _).
  - rewrite N. now destruct (match_at fl (Seq Bol r) _).
Qed.

(** ** Classification *)

Lemma chr_eq_space (a x : ascii) :
  isspace a = false -> isspace x = true -> chr_eq true a x = false.
Proof.
  intros Ha Hx. unfold chr_eq. destruct (eqc (lower a) (lower x)) eqn:E; [|reflexivity].
  apply eqc_true in E. rewrite <- (isspace_lower a), E, isspace_lower in Ha. congruence.
Qed.

Lemma leading_search (a : ascii) (w c : string) :
  isspace a = false ->
  re_search I_ (leading (String a w)) c
  = keyword_here (String a w) (skip isspace None c).
Proof.
  intros Ha. unfold leading. rewrite search_anchored by reflexivity.
  unfold match_at. cbn [run at_bol prev rest IGNORECASE I_ mem].
  rewrite rep_greedy_skip; [reflexivity|].
  intros pv x t Hx. cbn [lit rest]. now rewrite chr_eq_space.
Qed.

Lemma keyword_here_first (a x : ascii) (w t : string) (pv : option ascii) :
  found (keyword_here (String a w) (Cursor pv (String x t))) = true ->
  lower x = lower a.
Proof.
  unfold keyword_here. cbn [lit rest]. unfold chr_eq.
  destruct (eqc (lower a) (lower x)) eqn:E; [|discriminate].
  intros _. symmetry. now apply eqc_true.
Qed.

Lemma keyword_here_other (a b : ascii) (w v : string) (p : cursor) :
  lower a <> lower b ->
  found (keyword_here (String a w) p) = true ->
  found (keyword_here (String b v) p) = false.
Proof.
  intros Hab. destruct p as [pv [|x t]]; [discriminate|].
  intros F. apply keyword_here_first in F.
  unfold keyword_here. cbn [lit rest]. unfold chr_eq.
  destruct (eqc (lower b) (lower x)) eqn:E; [|reflexivity].
  apply eqc_true in E. congruence.
Qed.

Lemma leading_other (a b : ascii) (w v c : string) :
  isspace a = false -> isspace b = false -> lower a <> lower b ->
  found (re_search I_ (leading (String a w)) c) = true ->
  found (re_search I_ (leading (String b v)) c) = false.
Proof.
  intros Ha Hb Hab. rewrite !leading_search by assumption.
  now apply keyword_here_other.
Qed.

Lemma get_query_type_select (q : string) :
  get_query_type q = Some "SELECT" <->
  found (re_search I_ (leading "select") (strip_comments q)) = true.
Proof.
  unfold get_query_type, QUERY_PATTERNS. cbn [first_type].
  destruct (found (re_search I_ (leading "select") _)); [tauto|].
  repeat match goal with
         | |- context [if ?b then _ else _] => destruct b
         end; split; discriminate.
Qed.

Lemma get_query_type_delete (q : string) :
  get_query_type q = Some "DELETE" <->
  found (re_search I_ (leading "delete") (strip_comments q)) = true.
Proof.
  unfold get_query_type, QUERY_PATTERNS. cbn [first_type].
  split.
  - repeat match goal with
           | |- context [if ?b then _ else _] => destruct b
           end; (discriminate || reflexivity).
  - intros D.
    rewrite (leading_other "d" "s" _ _ _ eq_refl eq_refl ltac:(discriminate) D).
    rewrite (leading_other "d" "i" _ _ _ eq_refl eq_refl ltac:(discriminate) D).
    rewrite (leading_other "d" "u" _ _ _ eq_refl eq_refl ltac:(discriminate) D).
    now rewrite D.
Qed.

(** ** The denylist *)

Lemma word_before_spaces (ws t : string) :
  all_in isspace ws = true ->
  word_before (Cursor (last_of None ws) t) = false.
Proof.
  assert (G : forall pv, word_before (Cursor pv t) = false ->
                    all_in isspace ws = true ->
                    word_before (Cursor (last_of pv ws) t) = false).
  { induction ws as [|c ws IH]; intros pv Hpv A; [exact Hpv|].
    simpl in A. apply andb_prop in A as [Hc A]. simpl. apply IH; [|exact A].
    unfold word_before. simpl. now apply isspace_not_word. }
  now apply G.
Qed.

Lemma word_after_keyword (u t : string) (pv : option ascii) :
  u <> "" -> all_in isword (lower_str u) = true ->
  word_after (Cursor pv (u ++ t)) = true.
Proof.
  destruct u as [|x u]; [congruence|]. intros _ A. simpl in A.
  apply andb_prop in A as [Hx _]. rewrite app_cons. unfold word_after. simpl.
  now rewrite <- isword_lower.
Qed.

Lemma word_before_keyword (u t : string) (pv : option ascii) :
  u <> "" -> all_in isword (lower_str u) = true ->
  word_before (Cursor (last_of pv u) t) = true.
Proof.
  destruct u as [|x u]; [congruence|]. intros _. simpl. clear pv. revert x.
  induction u as [|y u IH]; intros x A; simpl in A; apply andb_prop in A as [Hx A].
  - unfold word_before. simpl. now rewrite <- isword_lower.
  - simpl. now apply IH.
Qed.

Lemma word_after_stops (pv : option ascii) (t : string) :
  word_after (Cursor pv t) = negb (stops isword t).
Proof.
  destruct t as [|x t]; unfold word_after; simpl; [reflexivity|].
  now rewrite negb_involutive.
Qed.

(** A keyword standing as a word at the start of the text, white space
    apart, is found by [\bkeyword\b]. *)
Lemma word_found (w c u t : string) :
  w <> "" -> all_in isword (lower_str w) = true ->
  lstrip isspace c = u ++ t -> lower_str u = lower_str w ->
  stops isword t = true ->
  found (re_search I_ (Seq Wordb (Seq (Lit w) Wordb)) c) = true.
Proof.
  intros Hw Aw Hc Hu Ht.
  assert (Hu0 : u <> "") by (destruct u, w; simpl in *; congruence).
  destruct (lstrip_split isspace c) as [ws [Ec Aws]]. rewrite Hc in Ec.
  rewrite Ec. unfold re_search. apply found_search_at.
  unfold match_at. cbn [run IGNORECASE I_].
  unfold at_wordb at 1.
  rewrite word_before_spaces by assumption.
  rewrite word_after_keyword by (try rewrite Hu; assumption).
  cbn [Bool.eqb negb]. rewrite lit_ci by assumption.
  unfold at_wordb.
  rewrite word_before_keyword by (try rewrite Hu; assumption).
  rewrite word_after_stops, Ht. reflexivity.
Qed.

Lemma truncate_found (c u t : string) :
  lstrip isspace c = u ++ t -> lower_str u = "truncate" ->
  stops isword t = true ->
  found (re_search I_ truncate c) = true.
Proof. intros. now apply (word_found "truncate" c u t). Qed.

Lemma drop_database_found (c d ws db t : string) :
  lstrip isspace c = d ++ ws ++ db ++ t ->
  lower_str d = "drop" -> ws <> "" -> all_in isspace ws = true ->
  lower_str db = "database" -> stops isword t = true ->
  found (re_search I_ drop_database c) = true.
Proof.
  intros Hc Hd Hws Aws Hdb Ht.
  destruct (lstrip_split isspace c) as [pre [Ec Apre]]. rewrite Hc in Ec.
  rewrite Ec. unfold re_search. apply found_search_at.
  unfold match_at, drop_database. cbn [run IGNORECASE I_ mem].
  unfold at_wordb at 1.
  rewrite word_before_spaces by assumption.
  rewrite (word_after_keyword d)
    by (try rewrite Hd; (reflexivity || (destruct d; simpl in *; congruence))).
  cbn [Bool.eqb negb]. rewrite lit_ci by assumption.
  destruct ws as [|x ws]; [congruence|]. simpl in Aws.
  apply andb_prop in Aws as [Hx Aws]. rewrite app_cons. cbn [rest]. rewrite Hx.
  assert (Sdb : stops isspace (db ++ t) = true).
  { destruct db as [|y db]; [discriminate|]. rewrite app_cons. simpl.
    simpl in Hdb. injection Hdb as Hy _.
    rewrite <- isspace_lower, Hy. reflexivity. }
  erewrite rep_greedy_max; [reflexivity|].
  rewrite skip_app by assumption. rewrite lit_ci by assumption.
  unfold at_wordb.
  rewrite word_before_keyword
    by (try rewrite Hdb; (reflexivity || (destruct db; simpl in *; congruence))).
  rewrite word_after_stops, Ht. reflexivity.
Qed.

Lemma validate_generated_query_unsafe (q message : string) :
  validate_query q = (false, Some message) ->
  validate_generated_query q = (false, Some message, None).
Proof. unfold validate_generated_query. now intros ->. Qed.

Lemma validate_generated_query_cleaned (q1 q2 : string) :
  strip_comments q1 = strip_comments q2 ->
  validate_generated_query q1 = validate_generated_query q2.
Proof.
  intros E. unfold validate_generated_query, validate_query,
    require_where_for_delete, get_query_type. rewrite E.
  destruct (first_dangerous _ _); [reflexivity|]. cbn [negb].
  destruct (found (re_search I_ (leading "delete") _)); [|cbn [negb]].
  - destruct (negb (found (re_search I_ where_kw _))); [reflexivity|].
    cbn [negb]. now destruct (first_type _ _).
  - now destruct (first_type _ _).
Qed.

(** ** Validation of SELECT and DELETE *)

Lemma validate_generated_query_select (q : string) :
  get_query_type q = Some "SELECT" -> passes_denylist q ->
  validate_generated_query q = (true, None, Some "SELECT").
Proof.
  intros T P. unfold validate_generated_query. rewrite P. cbn [negb].
  unfold require_where_for_delete.
  apply get_query_type_select in T as S.
  rewrite (leading_other "s" "d" _ _ _ eq_refl eq_refl ltac:(discriminate) S).
  cbn [negb]. now rewrite T.
Qed.

(** The injection step taken alone.  A SELECT text that passes the
    denylist is accepted with kind SELECT; when it has no LIMIT keyword,
    [inject_limit_to_select] gives a text that ends in [ LIMIT 100]
    (after the text without its trailing semicolons, when it is not a
    compound query); when it has one, it returns the text unchanged. *)
Lemma select_limit_injected (q : string) :
  get_query_type q = Some "SELECT" -> passes_denylist q ->
  validate_generated_query q = (true, None, Some "SELECT")
  /\ (mentions limit_kw q = false ->
      exists body,
        inject_limit_to_select q 100 = body ++ " LIMIT 100"
        /\ (mentions compound_kw q = false -> body = rstrip_semicolons q))
  /\ (mentions limit_kw q = true -> inject_limit_to_select q 100 = q).
Proof.
  intros T P. split; [now apply validate_generated_query_select|].
  apply get_query_type_select in T.
  unfold mentions, inject_limit_to_select. rewrite T. split; intros L; rewrite L; cbn [negb].
  - destruct (found (re_search I_ compound_kw _)).
    + exists ("(" ++ q ++ ")"). split; [|discriminate].
      change (str_of_int 100) with "100".
      now rewrite !app_assoc_str.
    + exists (rstrip_semicolons q). split; [|reflexivity].
      change (str_of_int 100) with "100". reflexivity.
  - reflexivity.
Qed.

Lemma select_limit_injected_witness :
  (get_query_type "SELECT * FROM users" = Some "SELECT"
   /\ passes_denylist "SELECT * FROM users")
  /\ validate_generated_query "SELECT * FROM users" = (true, None, Some "SELECT")
  /\ (mentions limit_kw "SELECT * FROM users" = false ->
      exists body,
        inject_limit_to_select "SELECT * FROM users" 100 = body ++ " LIMIT 100"
        /\ (mentions compound_kw "SELECT * FROM users" = false ->
            body = rstrip_semicolons "SELECT * FROM users"))
  /\ (mentions limit_kw "SELECT * FROM users" = true ->
      inject_limit_to_select "SELECT * FROM users" 100 = "SELECT * FROM users").
Proof.
  split; [split; vm_compute; reflexivity|].
  apply (select_limit_injected "SELECT * FROM users"); vm_compute; reflexivity.
Defined.

(** The scenarios of the specification on the validation. *)
Lemma validation_scenarios :
  validate_generated_query "SELECT * FROM users" = (true, None, Some "SELECT")
  /\ inject_limit_to_select "SELECT * FROM users" 100
     = "SELECT * FROM users LIMIT 100"
  /\ inject_limit_to_select "SELECT * FROM users LIMIT 50" 100
     = "SELECT * FROM users LIMIT 50"
  /\ validate_generated_query "DELETE FROM users"
     = (false, Some "DELETE statements must include a WHERE clause", None)
  /\ validate_generated_query "DELETE FROM users WHERE id = 1"
     = (true, None, Some "DELETE")
  /\ validate_generated_query "DROP DATABASE postgres"
     = (false, Some "DROP DATABASE is not allowed", None)
  /\ validate_generated_query "TRUNCATE TABLE users"
     = (false, Some "TRUNCATE is not allowed", None)
  /\ validate_generated_query "SELECT * FROM users; DELETE FROM users"
     = (false, Some "Multiple statements not allowed", None)
  /\ validate_generated_query "DROP TABLE users"
     = (false, Some "Could not determine query type", None).
Proof. vm_compute. auto 12. Qed.

(** A SELECT text without LIMIT that the batching guard stops is
    rejected: the denylist comes first. *)
Lemma select_without_limit_rejected :
  get_query_type "SELECT 1; DROP TABLE users" = Some "SELECT"
  /\ mentions limit_kw "SELECT 1; DROP TABLE users" = false
  /\ validate_generated_query "SELECT 1; DROP TABLE users"
     = (false, Some "Multiple statements not allowed", None).
Proof. vm_compute. auto. Qed.

Lemma execute_query_rejected (session : Sess.AsyncSession) (q : string) e
    (w : Sess.world session) :
  validate_generated_query q = (false, e, None) ->
  Sess.log_of (Sess.invoke (QueryExecutor.execute_query session q) w) = [].
Proof. intros V. unfold QueryExecutor.execute_query. now rewrite V. Qed.

(** The first call the executor makes for an accepted SELECT sends the
    text it was given. *)
Lemma execute_query_select_sends (session : Sess.AsyncSession) (q : string)
    (w : Sess.world session) :
  validate_generated_query q = (true, None, Some "SELECT") ->
  exists raised log,
    Sess.log_of (Sess.invoke (QueryExecutor.execute_query session q) w)
    = Sess.Event (Sess.Execute q) raised :: log.
Proof.
  intros V. unfold QueryExecutor.execute_query. rewrite V.
  cbn [negb QueryExecutor.is_type String.eqb Ascii.eqb Bool.eqb].
  unfold Sess.invoke, Sess.log_of, Sess.bind, TransactionManager.execute_read_only,
    Sess.try_except, Sess.bind, Sess.execute, Sess.fetchall, Sess.ask, Sess.ret.
  destruct (Sess.on_execute session q w) as [w1 [h|e1|e1]]; simpl; eauto.
  destruct (Sess.on_fetchall session h w1) as [w2 [rows|e2|e2]]; simpl; eauto.
Qed.

(** C3 (the code at the failing input).  For [SELECT * FROM users], a
    SELECT without LIMIT, the validation computes the text with the
    default limit and drops it: the outcome is the acceptance and the
    kind, with no rewritten text, and the statement the executor sends
    to the session is the text as given, without limit. *)
Theorem select_limit_dropped :
  let q := "SELECT * FROM users" in
  inject_limit_to_select q 100 = "SELECT * FROM users LIMIT 100"
  /\ validate_generated_query q = (true, None, Some "SELECT")
  /\ mentions limit_kw q = false
  /\ forall session w,
      exists raised log,
        Sess.log_of (Sess.invoke (QueryExecutor.execute_query session q) w)
        = Sess.Event (Sess.Execute "SELECT * FROM users") raised :: log.
Proof.
  cbv zeta. split; [vm_compute; reflexivity|]. split; [vm_compute; reflexivity|].
  split; [vm_compute; reflexivity|].
  intros session w. apply execute_query_select_sends. vm_compute. reflexivity.
Qed.

(** C5 (as amended).  For a DELETE text that passes the denylist: without
    a WHERE token it is rejected with a message that names WHERE, and the
    executor makes no call on the session; with a WHERE token it is
    accepted with kind DELETE. *)
Theorem delete_requires_where (q : string) :
  get_query_type q = Some "DELETE" -> passes_denylist q ->
  (mentions where_kw q = false ->
   validate_generated_query q
   = (false, Some "DELETE statements must include a WHERE clause", None)
   /\ str_in "WHERE" "DELETE statements must include a WHERE clause" = true
   /\ forall session w,
       Sess.log_of (Sess.invoke (QueryExecutor.execute_query session q) w) = [])
  /\ (mentions where_kw q = true ->
      validate_generated_query q = (true, None, Some "DELETE")).
Proof.
  intros T P. apply get_query_type_delete in T as D.
  assert (V : forall b, mentions where_kw q = b ->
    validate_generated_query q
    = if b then (true, None, Some "DELETE")
      else (false, Some "DELETE statements must include a WHERE clause", None)).
  { intros b W. unfold validate_generated_query. rewrite P. cbn [negb].
    unfold require_where_for_delete. rewrite D. unfold mentions in W. rewrite W.
    destruct b; cbn [negb]; [now rewrite T | reflexivity]. }
  split; intros W.
  - split; [exact (V false W)|]. split; [reflexivity|].
    intros session w. eapply execute_query_rejected. exact (V false W).
  - exact (V true W).
Qed.

Lemma delete_requires_where_witness :
  (get_query_type "DELETE FROM users" = Some "DELETE"
   /\ passes_denylist "DELETE FROM users"
   /\ mentions where_kw "DELETE FROM users" = false)
  /\ validate_generated_query "DELETE FROM users"
     = (false, Some "DELETE statements must include a WHERE clause", None)
  /\ validate_generated_query "DELETE FROM users WHERE 1=1"
     = (true, None, Some "DELETE").
Proof.
  split; [repeat split; vm_compute; reflexivity|]. split.
  - apply (delete_requires_where "DELETE FROM users"); vm_compute; reflexivity.
  - apply (delete_requires_where "DELETE FROM users WHERE 1=1"); vm_compute; reflexivity.
Defined.

(** C5 (as stated) fails: a DELETE text with a WHERE token is rejected
    when the denylist stops it. *)
Lemma delete_with_where_rejected :
  get_query_type "DELETE FROM users WHERE id = 1; DROP TABLE users" = Some "DELETE"
  /\ mentions where_kw "DELETE FROM users WHERE id = 1; DROP TABLE users" = true
  /\ validate_generated_query "DELETE FROM users WHERE id = 1; DROP TABLE users"
     = (false, Some "Multiple statements not allowed", None).
Proof. vm_compute. auto. Qed.

(** Every decision of the validation is a function of the text the two
    substitutions leave.  A text that, after them and leading white
    space apart, begins with the words DROP DATABASE (in any letter case)
    is rejected with the message that names DROP DATABASE; one that
    begins with the word TRUNCATE is rejected with the message that names
    TRUNCATE, unless the text left also has DROP DATABASE in it: the
    rules are tried in order, and the message is then that of DROP
    DATABASE.  Two texts with a keyword in a comment that the
    substitutions remove are accepted. *)
Lemma denylist_on_stripped_text :
  (forall q1 q2,
      strip_comments q1 = strip_comments q2 ->
      validate_generated_query q1 = validate_generated_query q2)
  /\ (forall q d ws db t,
        lstrip isspace (strip_comments q) = d ++ ws ++ db ++ t ->
        lower_str d = "drop" -> ws <> "" -> all_in isspace ws = true ->
        lower_str db = "database" -> stops isword t = true ->
        validate_generated_query q
        = (false, Some "DROP DATABASE is not allowed", None))
  /\ (forall q u t,
        lstrip isspace (strip_comments q) = u ++ t ->
        lower_str u = "truncate" -> stops isword t = true ->
        validate_generated_query q
        = (false,
           Some (if mentions drop_database q then "DROP DATABASE is not allowed"
                 else "TRUNCATE is not allowed"),
           None))
  /\ strip_comments
       ("SELECT a /* one" ++ String newline "two */ FROM t -- three"
        ++ String newline "WHERE b")
     = "SELECT a  FROM t " ++ String newline "WHERE b"
  /\ str_in "DROP DATABASE" "DROP DATABASE is not allowed" = true
  /\ str_in "TRUNCATE" "TRUNCATE is not allowed" = true
  /\ validate_generated_query "SELECT 1 -- truncate" = (true, None, Some "SELECT")
  /\ validate_generated_query "/* drop database x */ SELECT 1"
     = (true, None, Some "SELECT").
Proof.
  split; [exact validate_generated_query_cleaned|].
  split; [|split].
  - intros q d ws db t Hc Hd Hws Aws Hdb Ht.
    apply validate_generated_query_unsafe.
    unfold validate_query, DANGEROUS_PATTERNS. cbn [first_dangerous].
    now rewrite (drop_database_found _ d ws db t).
  - intros q u t Hc Hu Ht.
    apply validate_generated_query_unsafe.
    unfold validate_query, DANGEROUS_PATTERNS, mentions. cbn [first_dangerous].
    destruct (found (re_search I_ drop_database _)); [reflexivity|].
    now rewrite (truncate_found _ u t).
  - vm_compute. auto 10.
Qed.

Lemma denylist_on_stripped_text_witness :
  validate_generated_query "-- old" = validate_generated_query "/* old */"
  /\ validate_generated_query "-- cleanup
 drop   DataBase prod;"
     = (false, Some "DROP DATABASE is not allowed", None)
  /\ validate_generated_query "/* nightly */ TrUnCaTe TABLE users"
     = (false, Some "TRUNCATE is not allowed", None).
Proof.
  destruct denylist_on_stripped_text as [H1 [H2 [H3 _]]].
  split; [|split].
  - apply H1. vm_compute. reflexivity.
  - apply (H2 _ "drop" "   " "DataBase" " prod;"); vm_compute; (reflexivity || discriminate).
  - apply (H3 "/* nightly */ TrUnCaTe TABLE users" "TrUnCaTe" " TABLE users");
      vm_compute; reflexivity.
Defined.

(** A text that begins with TRUNCATE is rejected with a message that
    does not name TRUNCATE when DROP DATABASE comes later in it: the
    rules are tried in order. *)
Lemma truncate_message_names_drop_database :
  strip_comments "TRUNCATE TABLE t; DROP DATABASE d"
  = "TRUNCATE" ++ " TABLE t; DROP DATABASE d"
  /\ validate_generated_query "TRUNCATE TABLE t; DROP DATABASE d"
     = (false, Some "DROP DATABASE is not allowed", None)
  /\ str_in "TRUNCATE" "DROP DATABASE is not allowed" = false.
Proof. vm_compute. auto. Qed.

(** C7 (the code at the failing input).  The line comments are removed
    before the block comments, and the two dashes of a line comment are
    looked for inside block comments too.  In
    [SELECT 1 /* truncate -- */] the first substitution removes the
    dashes and the end of the block comment with them, the second finds
    no block comment to remove, and the text is rejected for a TRUNCATE
    that stands in a comment only; without the dashes the same comment
    is removed and the text is accepted.  The other way round, what
    follows a block comment with dashes on its line is removed with
    them: [SELECT 1 /* -- */; TRUNCATE TABLE users] is accepted as a
    SELECT, and the executor sends it whole. *)
Theorem dashes_in_block_comment :
  strip_comments "SELECT 1 /* truncate -- */" = "SELECT 1 /* truncate "
  /\ validate_generated_query "SELECT 1 /* truncate -- */"
     = (false, Some "TRUNCATE is not allowed", None)
  /\ strip_comments "SELECT 1 /* truncate */" = "SELECT 1 "
  /\ validate_generated_query "SELECT 1 /* truncate */" = (true, None, Some "SELECT")
  /\ strip_comments "SELECT 1 /* -- */; TRUNCATE TABLE users" = "SELECT 1 /* "
  /\ validate_generated_query "SELECT 1 /* -- */; TRUNCATE TABLE users"
     = (true, None, Some "SELECT")
  /\ forall session w,
      exists raised log,
        Sess.log_of
          (Sess.invoke
             (QueryExecutor.execute_query session
                "SELECT 1 /* -- */; TRUNCATE TABLE users") w)
        = Sess.Event (Sess.Execute "SELECT 1 /* -- */; TRUNCATE TABLE users") raised
          :: log.
Proof.
  repeat (split; [vm_compute; reflexivity|]).
  intros session w. apply execute_query_select_sends. vm_compute. reflexivity.
Qed.

(** ** Compound queries and batches *)

(** A SELECT text without LIMIT that has UNION, INTERSECT or EXCEPT in it
    is put between parentheses as it is. *)
Lemma inject_limit_compound (q : string) (limit : Z) :
  mentions (leading "select") q = true -> mentions limit_kw q = false ->
  mentions compound_kw q = true ->
  inject_limit_to_select q limit = "(" ++ q ++ ") LIMIT " ++ str_of_int limit.
Proof.
  unfold mentions, inject_limit_to_select. now intros -> -> ->.
Qed.

(** C4 (the code at the failing input).  The trailing semicolon of a
    compound query stays inside the parentheses; the branch of the plain
    query, and it alone, strips it.  The same holds for the limit of
    [preview_with_limit]. *)
Theorem compound_keeps_semicolon :
  inject_limit_to_select "SELECT a FROM t UNION SELECT b FROM u;" 100
  = "(SELECT a FROM t UNION SELECT b FROM u;) LIMIT 100"
  /\ inject_limit_to_select "SELECT a FROM t;" 100 = "SELECT a FROM t LIMIT 100"
  /\ PreviewService.with_limit "SELECT a FROM t UNION SELECT b FROM u;" 10
     = "(SELECT a FROM t UNION SELECT b FROM u;) LIMIT 10".
Proof. vm_compute. auto. Qed.

Lemma found_or (a b : result) :
  found (match a with Some r => Some r | None => b end) = found a || found b.
Proof. now destruct a. Qed.

Lemma rep_lazy_found (m : ascii -> bool) (k : cursor -> result) :
  forall pre t pv,
    all_in m pre = true ->
    found (k (Cursor (last_of pv pre) t)) = true ->
    found (rep_lazy m k pv (pre ++ t)) = true.
Proof.
  induction pre as [|x pre IH]; intros t pv A F.
  - rewrite app_empty_l. simpl in F.
    destruct t; simpl; destruct (k _); (reflexivity || discriminate).
  - simpl in A. apply andb_prop in A as [Mx A]. rewrite app_cons. simpl.
    destruct (k (Cursor pv _)); [reflexivity|]. rewrite Mx. now apply IH.
Qed.

(** A semicolon, then one of the keywords later on its line: the
    batching guard finds it. *)
Lemma second_statement_found (c pre mid kw post : string) :
  c = pre ++ ";" ++ mid ++ kw ++ post ->
  all_in same_line mid = true ->
  In (lower_str kw) statement_keywords ->
  found (re_search I_ second_statement c) = true.
Proof.
  intros -> Hmid Hkw. unfold re_search. apply found_search_at.
  unfold match_at, second_statement.
  cbn [run IGNORECASE I_ mem DOTALL orb].
  rewrite (lit_ci ";" ";") by reflexivity.
  apply rep_lazy_found; [exact Hmid|].
  rewrite !found_or.
  unfold statement_keywords in Hkw. cbn [In] in Hkw.
  repeat (destruct Hkw as [Hkw | Hkw];
          [ match type of Hkw with
            | ?w = _ => rewrite (lit_ci w kw) by (now rewrite <- Hkw)
            end;
            cbn [found]; now rewrite ?orb_true_r | ]).
  contradiction.
Qed.

(** What the batching guard does stop.  A text whose comment-stripped
    form has a semicolon followed, with no line break in between, by one
    of the keywords SELECT, INSERT, UPDATE, DELETE, DROP, ALTER, TRUNCATE
    (in any letter case) is rejected with the message of the first rule
    of the denylist that matches: that of the batching guard, unless the
    text has DROP DATABASE or TRUNCATE in it, the rules of which come
    first. *)
Lemma batching_guard (q pre mid kw post : string) :
  strip_comments q = pre ++ ";" ++ mid ++ kw ++ post ->
  all_in same_line mid = true ->
  In (lower_str kw) statement_keywords ->
  validate_generated_query q
  = (false,
     Some (if mentions drop_database q then "DROP DATABASE is not allowed"
           else if mentions truncate q then "TRUNCATE is not allowed"
           else "Multiple statements not allowed"),
     None).
Proof.
  intros Hc Hmid Hkw. apply validate_generated_query_unsafe.
  unfold validate_query, DANGEROUS_PATTERNS, mentions. cbn [first_dangerous].
  destruct (found (re_search I_ drop_database _)); [reflexivity|].
  destruct (found (re_search I_ truncate _)); [reflexivity|].
  now rewrite (second_statement_found _ pre mid kw post).
Qed.

Lemma batching_guard_witness :
  validate_generated_query "SELECT 1; DROP TABLE users"
  = (false, Some "Multiple statements not allowed", None).
Proof.
  apply (batching_guard "SELECT 1; DROP TABLE users" "SELECT 1" " " "DROP"
           " TABLE users");
    [ vm_compute; reflexivity | vm_compute; reflexivity | vm_compute; tauto ].
Defined.

(** A semicolon followed by TRUNCATE is rejected with the message of
    the TRUNCATE rule, not with that of the batching guard: the rules
    are tried in order. *)
Lemma batch_with_truncate_message :
  strip_comments "SELECT 1; TRUNCATE TABLE users"
  = "SELECT 1" ++ ";" ++ " " ++ "TRUNCATE" ++ " TABLE users"
  /\ validate_generated_query "SELECT 1; TRUNCATE TABLE users"
     = (false, Some "TRUNCATE is not allowed", None)
  /\ str_in "Multiple statements" "TRUNCATE is not allowed" = false.
Proof. vm_compute. auto. Qed.

(** C6 (the code at the failing input).  The pattern of the batching
    guard is searched without [re.DOTALL], so the dot stops at a line
    break: [SELECT 1; DROP TABLE users] on one line is rejected with the
    message of the guard, and the same two statements with a line break
    after the semicolon pass it.  The text is accepted as a SELECT and
    the executor sends it whole to the session. *)
Theorem batch_on_next_line_accepted :
  let batch := "SELECT 1;" ++ String newline "DROP TABLE users" in
  validate_generated_query "SELECT 1; DROP TABLE users"
  = (false, Some "Multiple statements not allowed", None)
  /\ strip_comments batch = "SELECT 1" ++ ";" ++ String newline "DROP" ++ " TABLE users"
  /\ validate_generated_query batch = (true, None, Some "SELECT")
  /\ forall session w,
      exists raised log,
        Sess.log_of (Sess.invoke (QueryExecutor.execute_query session batch) w)
        = Sess.Event (Sess.Execute batch) raised :: log.
Proof.
  cbv zeta. repeat (split; [vm_compute; reflexivity|]).
  intros session w. apply execute_query_select_sends. vm_compute. reflexivity.
Qed.

(** ** The preview of an UPDATE *)

Lemma length_lstrip (m : ascii -> bool) (s : string) :
  String.length (lstrip m s) <= String.length s.
Proof. induction s as [|c s IH]; simpl; [lia|]. destruct (m c); simpl; lia. Qed.

Lemma length_rstrip (m : ascii -> bool) (s : string) :
  String.length (rstrip m s) <= String.length s.
Proof.
  induction s as [|c s IH]; simpl; [lia|].
  destruct (rstrip m s); [destruct (m c)|]; simpl in *; lia.
Qed.

Lemma rstrip_fixed (m : ascii -> bool) (s : string) :
  s <> "" -> rstrip m s = s ->
  exists c, last_of None s = Some c /\ m c = false.
Proof.
  induction s as [|c s IH]; [congruence|]. intros _ E. simpl in E.
  destruct s as [|y s].
  - simpl in E. destruct (m c) eqn:Mc; [discriminate|]. now exists c.
  - destruct (rstrip m (String y s)) as [|y' s'] eqn:R.
    + destruct (m c); discriminate.
    + injection E as E1 E2. subst.
      destruct IH as [c' [L M']]; [discriminate | reflexivity |].
      exists c'. split; [|exact M']. simpl in *. exact L.
Qed.

Lemma rstrip_all (m : ascii -> bool) (s : string) :
  all_in (fun c => negb (m c)) s = true -> rstrip m s = s.
Proof.
  induction s as [|c s IH]; [reflexivity|]. simpl. intros A.
  apply andb_prop in A as [Mc A]. rewrite (IH A).
  destruct s; [|reflexivity]. now destruct (m c).
Qed.

Lemma strip_token (s : string) : token s = true -> strip s = s.
Proof.
  unfold token, strip. intros T. apply andb_prop in T as [N A].
  destruct s as [|c s]; [discriminate|]. simpl in A.
  apply andb_prop in A as [Mc A]. simpl lstrip.
  destruct (isspace c) eqn:Sc; [discriminate|].
  apply rstrip_all. simpl. now rewrite Sc, A.
Qed.

Lemma trimmed_inv (s : string) :
  trimmed s = true ->
  strip s = s
  /\ exists z s1 c, s = String z s1 /\ isspace z = false
                    /\ last_of (Some z) s1 = Some c
                    /\ isspace c = false /\ c <> ";"%char.
Proof.
  unfold trimmed. intros T. apply andb_prop in T as [T R].
  apply andb_prop in T as [N S]. apply String.eqb_eq in R, S.
  split; [exact S|]. destruct s as [|z s1]; [discriminate|].
  assert (Hz : isspace z = false).
  { destruct (isspace z) eqn:Sz; [|reflexivity]. exfalso.
    unfold strip in S. simpl in S. rewrite Sz in S.
    pose proof (length_rstrip isspace (lstrip isspace s1)) as L1.
    pose proof (length_lstrip isspace s1) as L2.
    rewrite S in L1. simpl in L1. lia. }
  unfold strip in S. simpl lstrip in S. rewrite Hz in S.
  assert (Ne : String z s1 <> "") by discriminate.
  destruct (rstrip_fixed isspace _ Ne S) as [c [L Sc]].
  destruct (rstrip_fixed (eqc ";") _ Ne R) as [c' [L' Sc']].
  rewrite L in L'. injection L' as L'. subst c'. simpl in L.
  exists z, s1, c. repeat split; try assumption.
  intros ->. now rewrite eqc_refl in Sc'.
Qed.

Lemma blank_inv (s : string) :
  blank s = true ->
  exists x s1, s = String x s1 /\ isspace x = true /\ all_in isspace s1 = true.
Proof.
  unfold blank. intros B. apply andb_prop in B as [N A].
  destruct s as [|x s1]; [discriminate|]. simpl in A.
  apply andb_prop in A as [Hx A]. now exists x, s1.
Qed.

Lemma token_inv (s : string) :
  token s = true ->
  exists x s1, s = String x s1 /\ isspace x = false
               /\ all_in (fun c => negb (isspace c)) s1 = true.
Proof.
  unfold token. intros B. apply andb_prop in B as [N A].
  destruct s as [|x s1]; [discriminate|]. simpl in A.
  apply andb_prop in A as [Hx A]. exists x, s1.
  repeat split; [|exact A]. now destruct (isspace x).
Qed.

Lemma lit_none (w s : string) (pv : option ascii) k :
  starts_ci w s = false -> lit true w k (Cursor pv s) = None.
Proof.
  revert s pv. induction w as [|a w IH]; intros s pv E; [discriminate|].
  destruct s as [|x s]; [reflexivity|]. simpl in *. unfold chr_eq.
  destruct (eqc (lower a) (lower x)); [|reflexivity]. now apply IH.
Qed.

Lemma find_ci_fails (w : string) k : forall pre t pv,
  find_ci w (pre ++ t) = Some (String.length pre) ->
  fails_along (lit true w k) pv pre t.
Proof.
  induction pre as [|x pre IH]; intros t pv F; [exact I|].
  rewrite app_cons in F. simpl in F.
  destruct (starts_ci w (String x (pre ++ t))) eqn:S0; [discriminate|].
  destruct (find_ci w (pre ++ t)) as [n|] eqn:F1; [|discriminate].
  simpl in F. injection F as ->. split.
  - now apply lit_none.
  - now apply IH.
Qed.

Lemma at_eol_cons (fl : flags) (pv : option ascii) (y : ascii) (t : string) :
  MULTILINE fl = false ->
  at_eol fl (Cursor pv (String y t)) = true -> t = "" /\ y = newline.
Proof.
  intros Hm. unfold at_eol. simpl. destruct t; [|now rewrite Hm].
  intros E. now apply eqc_true in E.
Qed.

Lemma lower_semicolon (y : ascii) : lower ";" = lower y -> y = ";"%char.
Proof. each_char y. Qed.

Lemma app_is_empty (s t : string) : s ++ t = "" -> s = "" /\ t = "".
Proof. destruct s; [now rewrite app_empty_l | discriminate]. Qed.

(** Inside the condition, [(?:;)?$] does not match: the text goes on. *)
Lemma tail_fails (f1 : cursor -> cursor -> caps * cursor)
    (f2 : cursor -> caps * cursor) (semi : string) :
  semi = "" \/ semi = ";" ->
  forall s1 z pv c,
    last_of (Some z) s1 = Some c -> isspace c = false -> c <> ";"%char ->
    fails_along
      (fun p' =>
         match lit true ";"
                 (fun p => if at_eol IS_ p then Some (f1 p' p) else None) p' with
         | Some res => Some res
         | None => if at_eol IS_ p' then Some (f2 p') else None
         end) pv s1 semi.
Proof.
  intros Hsemi. induction s1 as [|y rem IH]; intros z pv c L Sc Nc; [exact I|].
  simpl in L. split; [|now apply (IH y _ c)].
  assert (E1 : at_eol IS_ (Cursor pv (String y (rem ++ semi))) = false).
  { destruct (at_eol IS_ _) eqn:E; [|reflexivity]. exfalso.
    apply at_eol_cons in E as [E ->]; [|reflexivity].
    apply app_is_empty in E as [-> ->]. simpl in L. injection L as L. subst c.
    discriminate. }
  rewrite E1. cbn [lit rest]. unfold chr_eq.
  destruct (eqc (lower ";") (lower y)) eqn:Ey; [|reflexivity].
  apply eqc_true, lower_semicolon in Ey. subst y.
  destruct (at_eol IS_ (Cursor (Some ";"%char) (rem ++ semi))) eqn:E2; [|reflexivity].
  exfalso. destruct (rem ++ semi) as [|y2 t2] eqn:R.
  - apply app_is_empty in R as [-> ->]. simpl in L. injection L as L. now subst c.
  - apply at_eol_cons in E2 as [-> ->]; [|reflexivity].
    destruct Hsemi as [-> | ->].
    + rewrite app_empty_r in R. subst rem. simpl in L. injection L as L. subst c.
      discriminate.
    + destruct rem as [|r0 rem]; [discriminate|]. rewrite app_cons in R.
      injection R as _ R. now destruct rem.
Qed.

Lemma all_in_dot (s : string) : all_in (mem IS_ Dot) s = true.
Proof. induction s as [|c s IH]; [reflexivity|]. simpl. exact IH. Qed.

Lemma stops_app (m : ascii -> bool) (s t : string) :
  s <> "" -> stops m s = true -> stops m (s ++ t) = true.
Proof. destruct s; [congruence|]. now rewrite app_cons. Qed.

Lemma update_where_match (upd ws table mid wh ws' cond semi : string) :
  lower_str upd = "update" ->
  blank ws = true -> token table = true ->
  mid <> "" -> stops (fun c => negb (isspace c)) mid = true ->
  find_ci "WHERE" (mid ++ wh ++ ws' ++ cond ++ semi) = Some (String.length mid) ->
  lower_str wh = "where" ->
  blank ws' = true -> trimmed cond = true ->
  semi = "" \/ semi = ";" ->
  exists p,
    re_match IS_ update_where
      (upd ++ ws ++ table ++ mid ++ wh ++ ws' ++ cond ++ semi)
    = Some ([(2, cond); (1, table)], p).
Proof.
  intros Hupd Hws Htable Hmid0 Hmid Hfind Hwh Hws' Hcond Hsemi.
  apply blank_inv in Hws as [x [ws1 [-> [Hx Aws]]]].
  apply blank_inv in Hws' as [x' [ws1' [-> [Hx' Aws']]]].
  apply token_inv in Htable as [y [table1 [-> [Hy Atable]]]].
  apply trimmed_inv in Hcond as [_ [z [cond1 [c [-> [Hz [L [Sc Nc]]]]]]]].
  unfold re_match, match_at, update_where.
  cbn [run IGNORECASE IS_ mem DOTALL].
  rewrite lit_ci by assumption.
  rewrite app_cons. cbn [rest]. rewrite Hx.
  assert (Hfails := tail_fails).
  destruct Hsemi as [Es | Es]; eexists;
    (eapply rep_greedy_max;
     rewrite skip_app;
       [| assumption | rewrite app_cons; simpl; now rewrite Hy ];
     cbn beta; rewrite app_cons; cbn [rest]; rewrite Hy; cbn [negb];
     eapply rep_greedy_max;
     rewrite skip_app;
       [| assumption | now apply stops_app ];
     cbn beta; cbn [rest prev];
     eapply rep_lazy_first;
       [ apply all_in_dot | now apply find_ci_fails | ];
     rewrite lit_ci by assumption;
     rewrite app_cons; cbn [rest]; rewrite Hx';
     eapply rep_greedy_max;
     rewrite skip_app;
       [| assumption | rewrite app_cons; simpl; now rewrite Hz ];
     cbn beta; rewrite app_cons; cbn [rest orb];
     eapply rep_lazy_first;
       [ apply all_in_dot
       | apply Hfails with (z := z) (c := c); (assumption || auto)
       | ];
     subst semi; cbn [lit rest]; unfold chr_eq;
     try rewrite eqc_refl; cbn [at_eol rest];
     rewrite <- !app_cons, !slice_app_exact; reflexivity).
Qed.

(** C8 (as amended).  For a text made of UPDATE (in any letter case),
    white space, a table token, a middle part that starts with white
    space, the letters WHERE at their first occurrence after the table
    token, white space, and a condition without white space at its ends
    or a semicolon at its end, followed by one semicolon at most, the
    preview transformation yields [SELECT * FROM table WHERE condition]. *)
Theorem update_preview (upd ws table mid wh ws' cond semi : string) :
  lower_str upd = "update" ->
  blank ws = true -> token table = true ->
  mid <> "" -> stops (fun c => negb (isspace c)) mid = true ->
  find_ci "WHERE" (mid ++ wh ++ ws' ++ cond ++ semi) = Some (String.length mid) ->
  lower_str wh = "where" ->
  blank ws' = true -> trimmed cond = true ->
  semi = "" \/ semi = ";" ->
  convert_update_to_select
    (upd ++ ws ++ table ++ mid ++ wh ++ ws' ++ cond ++ semi)
  = "SELECT * FROM " ++ table ++ " WHERE " ++ cond.
Proof.
  intros Hupd Hws Htable Hmid0 Hmid Hfind Hwh Hws' Hcond Hsemi.
  destruct (update_where_match upd ws table mid wh ws' cond semi)
    as [p M]; try assumption.
  unfold convert_update_to_select. rewrite M. cbn [group List.find fst snd Nat.eqb].
  rewrite (strip_token table Htable).
  now rewrite (proj1 (trimmed_inv cond Hcond)).
Qed.

Lemma update_preview_witness :
  convert_update_to_select "UPDATE users SET name='x' WHERE id=1"
  = "SELECT * FROM users WHERE id=1".
Proof.
  apply (update_preview "UPDATE" " " "users" " SET name='x' " "WHERE" " " "id=1" "");
    try (vm_compute; reflexivity); try discriminate; now left.
Defined.

(** C8 (as stated) fails: an UPDATE with a table token and a WHERE clause
    whose keyword is not followed by white space takes the fallback, and
    the condition is taken after the first letters WHERE of the text,
    which need not open the WHERE clause. *)
Lemma update_preview_not_the_where_clause :
  convert_update_to_select "UPDATE users SET name='x' WHERE(id=1)"
  = "SELECT * users  WHERE(id=1)"
  /\ starts_with "SELECT * FROM users WHERE"
       (convert_update_to_select "UPDATE users SET name='x' WHERE(id=1)") = false
  /\ convert_update_to_select "UPDATE t SET note='somewhere else' WHERE id=1"
     = "SELECT * FROM t WHERE else' WHERE id=1".
Proof. vm_compute. auto. Qed.

(** ** Calls on the session *)

Section Calls.
Context (session : AsyncSession) (P : event -> Prop).

Lemma keeps_ret {A} (a : A) : keeps session P (ret a).
Proof. intros s H. exact H. Qed.

Lemma keeps_bind {A B} (m : M session A) (f : A -> M session B) :
  keeps session P m -> (forall a, keeps session P (f a)) ->
  keeps session P (bind m f).
Proof.
  intros Hm Hf s H. unfold bind. specialize (Hm s H).
  destruct (m s) as [s' [a|e|e]]; [now apply Hf | exact Hm | exact Hm].
Qed.

Lemma keeps_try_except {A} (m : M session A) (h : string -> M session A) :
  keeps session P m -> (forall e, keeps session P (h e)) ->
  keeps session P (try_except m h).
Proof.
  intros Hm Hh s H. unfold try_except. specialize (Hm s H).
  destruct (m s) as [s' [a|e|e]]; [exact Hm | now apply Hh | exact Hm].
Qed.

Lemma keeps_ask {A} (c : call) (f : world session -> world session * outcome A) :
  (forall b, P (Event c b)) -> keeps session P (ask session c f).
Proof.
  intros Hc [w log] H. unfold ask. destruct (f w) as [w' o]. simpl in *.
  apply Forall_app. split; [exact H|]. constructor; [apply Hc | constructor].
Qed.

Lemma keeps_invoke {A} (m : M session A) (w : world session) :
  keeps session P m -> Forall P (log_of (invoke m w)).
Proof. intros Hm. apply (Hm (w, [])). constructor. Qed.

End Calls.

(** One case for each answer of the next call on the session. *)
Ltac next_answer :=
  match goal with
  | |- context [on_execute ?s ?q ?w] =>
      destruct (on_execute s q w) as [? [?|?|?]]
  | |- context [on_fetchall ?s ?h ?w] =>
      destruct (on_fetchall s h w) as [? [?|?|?]]
  | |- context [on_rowcount ?s ?h ?w] =>
      destruct (on_rowcount s h w) as [? [?|?|?]]
  | |- context [on_commit ?s ?w] =>
      destruct (on_commit s w) as [? [[]|?|?]]
  | |- context [on_rollback ?s ?w] =>
      destruct (on_rollback s w) as [? [[]|?|?]]
  end; simpl.

Ltac keeps_step :=
  first
    [ apply keeps_ret
    | apply keeps_bind; [| intros ? ]
    | apply keeps_try_except; [| intros ? ]
    | apply keeps_ask; intros ?; exact I ].

Lemma execute_preview_query_reads (session : AsyncSession) (query : string) :
  keeps session reads_only (execute_preview_query session query).
Proof. unfold execute_preview_query, execute, fetchall. repeat keeps_step. Qed.

Lemma preview_query_reads (session : AsyncSession) (query : string) :
  keeps session reads_only (QueryExecutor.preview_query session query).
Proof.
  unfold QueryExecutor.preview_query.
  destruct (QueryValidator.validate_preview_query query) as [is_valid error].
  destruct (negb is_valid); [apply keeps_ret|].
  apply keeps_bind; [apply execute_preview_query_reads|].
  intros [[success affected_rows] error']. destruct success.
  - unfold execute, fetchall. repeat keeps_step.
  - apply keeps_ret.
Qed.

Lemma reads_only_no_commit (log : list event) :
  Forall reads_only log ->
  Forall (fun e => what e <> Commit /\ what e <> Rollback) log.
Proof.
  intros H. eapply Forall_impl; [exact H|]. intros [c b]. unfold reads_only. simpl.
  destruct c; intros H'; (contradiction || (split; discriminate)).
Qed.

(** C2.  Whatever the session answers, the preview path asks it to run
    statements and to fetch rows and nothing else: neither
    [execute_preview_query], nor [QueryExecutor.preview_query], nor the
    two entries of [PreviewService] ask for a commit, whatever the text
    previewed is. *)
Theorem preview_never_commits (session : AsyncSession) (query : string)
    (limit : Z) (w : world session) :
  no_commit (log_of (invoke (execute_preview_query session query) w))
  /\ no_commit (log_of (invoke (QueryExecutor.preview_query session query) w))
  /\ no_commit (log_of (invoke (PreviewService.preview_query session query) w))
  /\ no_commit
       (log_of (invoke (PreviewService.preview_with_limit session query limit) w)).
Proof.
  assert (C : forall log, Forall reads_only log -> no_commit log).
  { intros log H. split; [now apply reads_only_no_commit|].
    unfold count. induction H as [|[c b] l Hc _ IH]; [reflexivity|].
    unfold reads_only in Hc. simpl in Hc.
    destruct c; try contradiction; simpl; exact IH. }
  split; [|split; [|split]]; apply C, keeps_invoke.
  - apply execute_preview_query_reads.
  - apply preview_query_reads.
  - unfold PreviewService.preview_query. repeat keeps_step.
    apply preview_query_reads.
  - unfold PreviewService.preview_with_limit. repeat keeps_step.
    apply preview_query_reads.
Qed.

(** ** The write path *)

(** When the statement itself raises, the write path rolls back and
    answers with the failure and its message. *)
Lemma execute_with_transaction_statement_fails (session : AsyncSession)
    (query message : string) (w w1 w2 : world session) :
  on_execute session query w = (w1, Raises message) ->
  on_rollback session w1 = (w2, Returns tt) ->
  invoke (execute_with_transaction session query) w
  = (w2, [Event (Execute query) true; Event Rollback false],
     Returns (false, Nothing, Some message)).
Proof.
  intros E R. unfold invoke, execute_with_transaction, try_except, bind,
    execute, rollback, ask, ret. rewrite E. simpl. now rewrite R.
Qed.

(** Of the commits and rollbacks of one call, one at most goes
    through. *)
Lemma execute_with_transaction_one_effect (session : AsyncSession)
    (query : string) (w : world session) :
  let log := log_of (invoke (execute_with_transaction session query) w) in
  count committed log + count rolled_back log <= 1.
Proof.
  cbv zeta. unfold invoke, log_of, execute_with_transaction, try_except, bind,
    execute, fetchall, rowcount, commit, rollback, ask, ret.
  repeat next_answer; vm_compute; lia.
Qed.

(** When the first commit raises, the inner handler takes the exception
    for the sign of a statement without rows, and commits again; when
    that commit returns, the answer is a success and no rollback is asked
    for, on every session. *)
Lemma execute_with_transaction_commit_retry (session : AsyncSession)
    (query message : string) (h : handle session) (rows : list (row session))
    (n : Z) (w w1 w2 w3 w4 w5 : world session) :
  on_execute session query w = (w1, Returns h) ->
  on_fetchall session h w1 = (w2, Returns rows) ->
  on_commit session w2 = (w3, Raises message) ->
  on_rowcount session h w3 = (w4, Returns n) ->
  on_commit session w4 = (w5, Returns tt) ->
  invoke (execute_with_transaction session query) w
  = (w5,
     [ Event (Execute query) false; Event Fetchall false; Event Commit true;
       Event Rowcount false; Event Commit false ],
     Returns (true, Count n, None)).
Proof.
  intros E F C1 R C2. unfold invoke, execute_with_transaction, try_except, bind,
    execute, fetchall, rowcount, commit, ask, ret.
  rewrite E. simpl. rewrite F. simpl. rewrite C1. simpl. rewrite R. simpl.
  now rewrite C2.
Qed.

(** C1 (the code at the failing input).  On a session of which the first
    commit raises, the exception is caught by the inner handler and the
    write path commits a second time.  When that commit returns, the
    answer is a success: no rollback is asked for and the message of the
    exception is lost.  When it raises too, the rollback is asked for,
    and the failure carries the message of the second exception. *)
Theorem commit_failure_reported_as_success :
  let query := "INSERT INTO orders (user_id) VALUES (7) RETURNING id" in
  let r := invoke (execute_with_transaction (commit_fails_first true) query) 0 in
  let r' := invoke (execute_with_transaction (commit_fails_first false) query) 0 in
  answer r = Returns (true, Count 1%Z, None)
  /\ log_of r = [ Event (Execute query) false; Event Fetchall false;
                  Event Commit true; Event Rowcount false;
                  Event Commit false ]
  /\ count rolled_back (log_of r) = 0
  /\ answer r' = Returns (false, Nothing, Some "This transaction is inactive")
  /\ log_of r' = [ Event (Execute query) false; Event Fetchall false;
                   Event Commit true; Event Rowcount false;
                   Event Commit true; Event Rollback false ].
Proof. vm_compute. auto 10. Qed.

(** The preview reads only the query type of the validation: for a DELETE
    without WHERE, which the validation rejects, it finds no type, leaves
    the text as it is and sends it to the session. *)
Lemma preview_sends_rejected_delete (session : AsyncSession) (w : world session) :
  QueryValidator.validate_generated_query "DELETE FROM users"
  = (false, Some "DELETE statements must include a WHERE clause", None)
  /\ exists raised log,
      log_of (invoke (QueryExecutor.preview_query session "DELETE FROM users") w)
      = Event (Execute "DELETE FROM users") raised :: log.
Proof.
  split; [vm_compute; reflexivity|].
  unfold QueryExecutor.preview_query.
  replace (QueryValidator.validate_preview_query "DELETE FROM users")
    with (true, @None string) by (vm_compute; reflexivity).
  replace (QueryValidator.validate_generated_query "DELETE FROM users")
    with (false, Some "DELETE statements must include a WHERE clause", @None string)
    by (vm_compute; reflexivity).
  cbn [negb snd QueryExecutor.is_type].
  unfold invoke, log_of, bind, execute_preview_query, try_except, bind,
    execute, fetchall, ask, ret.
  repeat next_answer; eauto.
Qed.

(** ** The diff of two snapshots *)

Section RowsFacts.
Context {V : Type} `{Countable V}.

Local Abbreviation row := (gmap string V).
Local Abbreviation item := (string * V)%type.

Lemma row_tuple_perm (r : row) : row_tuple r ≡ₚ map_to_list r.
Proof. apply merge_sort_Permutation. Qed.

Lemma row_tuple_to_map (r : row) : list_to_map (row_tuple r) = r.
Proof. symmetry. apply list_to_map_flip. symmetry. apply row_tuple_perm. Qed.

#[local] Instance row_tuple_inj : Inj (=) (=) (row_tuple (V:=V)).
Proof.
  intros r1 r2 E. rewrite <- (row_tuple_to_map r1), <- (row_tuple_to_map r2).
  now rewrite E.
Qed.

#[local] Instance item_le_total : Total (item_le (V:=V)).
Proof. intros a b. unfold item_le. apply String.le_total. Qed.

#[local] Instance item_le_trans : Transitive (item_le (V:=V)).
Proof. intros a b c. unfold item_le. apply transitivity. Qed.

Lemma row_tuple_sorted (r : row) : StronglySorted item_le (row_tuple r).
Proof. apply StronglySorted_merge_sort; apply _. Qed.

Lemma tuples_of_rows (rows : list row) :
  (list_to_set (row_tuple <$> rows) : gset (list item))
  = set_map row_tuple (list_to_set rows : gset row).
Proof. apply list_to_set_fmap_L. Qed.

Lemma size_set_map_inj (X : gset row) :
  size (set_map row_tuple X : gset (list item)) = size X.
Proof.
  unfold size, set_size. simpl.
  rewrite <- (length_fmap row_tuple (elements X)).
  apply Permutation_length, NoDup_Permutation.
  - apply NoDup_elements.
  - apply NoDup_fmap_2; [apply _ | apply NoDup_elements].
  - intros t. rewrite elem_of_elements, elem_of_map, list_elem_of_fmap.
    now setoid_rewrite elem_of_elements.
Qed.

Lemma set_map_intersection_inj (X Y : gset row) :
  (set_map row_tuple X ∩ set_map row_tuple Y : gset (list item))
  = set_map row_tuple (X ∩ Y).
Proof.
  apply set_eq. intros t. rewrite elem_of_intersection, !elem_of_map.
  split.
  - intros [[r1 [-> H1]] [r2 [E H2]]]. apply row_tuple_inj in E. subst r2.
    exists r1. split; [reflexivity|]. now apply elem_of_intersection.
  - intros [r [-> Hr]]. apply elem_of_intersection in Hr as [H1 H2].
    split; exists r; auto.
Qed.

Lemma rows_added_size (A B : list row) :
  rows_added (calculate_row_diff A B)
  = size ((list_to_set B : gset row) ∖ list_to_set A).
Proof.
  unfold calculate_row_diff. cbn [rows_added].
  rewrite !tuples_of_rows, <- set_map_difference_L by apply _.
  apply size_set_map_inj.
Qed.

Lemma rows_removed_size (A B : list row) :
  rows_removed (calculate_row_diff A B)
  = size ((list_to_set A : gset row) ∖ list_to_set B).
Proof.
  unfold calculate_row_diff. cbn [rows_removed].
  rewrite !tuples_of_rows, <- set_map_difference_L by apply _.
  apply size_set_map_inj.
Qed.

Lemma rows_unchanged_size (A B : list row) :
  rows_unchanged (calculate_row_diff A B)
  = size ((list_to_set A : gset row) ∩ list_to_set B).
Proof.
  unfold calculate_row_diff. cbn [rows_unchanged].
  rewrite !tuples_of_rows, set_map_intersection_inj.
  apply size_set_map_inj.
Qed.

(** C9.  The diff is symmetric: the rows added from [A] to [B] are as
    many as the rows removed from [B] to [A].  Rows count as members of
    sets: a row is identified by its sorted list of (column, value)
    pairs, which is one and the same for equal rows only; the rows added
    are the distinct rows of [B] that are not in [A], the rows unchanged
    the distinct rows in both; the samples hold ten rows at most. *)
Theorem row_diff_symmetric (A B : list (gmap string V)) :
  rows_added (calculate_row_diff A B) = rows_removed (calculate_row_diff B A)
  /\ rows_added (calculate_row_diff A B)
     = size ((list_to_set B : gset (gmap string V)) ∖ list_to_set A)
  /\ rows_removed (calculate_row_diff A B)
     = size ((list_to_set A : gset (gmap string V)) ∖ list_to_set B)
  /\ rows_unchanged (calculate_row_diff A B)
     = size ((list_to_set A : gset (gmap string V)) ∩ list_to_set B)
  /\ length (added_rows (calculate_row_diff A B)) <= 10
  /\ length (removed_rows (calculate_row_diff A B)) <= 10
  /\ (forall r1 r2 : gmap string V, row_tuple r1 = row_tuple r2 <-> r1 = r2)
  /\ (forall r : gmap string V,
        StronglySorted item_le (row_tuple r)
        /\ row_tuple r ≡ₚ map_to_list r).
Proof.
  split; [reflexivity|].
  split; [apply rows_added_size|].
  split; [apply rows_removed_size|].
  split; [apply rows_unchanged_size|].
  split; [|split; [|split]].
  - unfold calculate_row_diff. cbn [added_rows].
    rewrite length_fmap, length_take. lia.
  - unfold calculate_row_diff. cbn [removed_rows].
    rewrite length_fmap, length_take. lia.
  - intros r1 r2. split; [apply row_tuple_inj | now intros ->].
  - intros r. split; [apply row_tuple_sorted | apply row_tuple_perm].
Qed.

(** C10.  When one of the two snapshots is empty, the column diff is
    empty: no column is reported as changed. *)
Theorem column_changes_empty_snapshot (before_rows after_rows : list (gmap string V)) :
  before_rows = [] \/ after_rows = [] ->
  compare_column_changes before_rows after_rows = ∅.
Proof.
  intros [-> | ->]; unfold compare_column_changes; [reflexivity|].
  now destruct before_rows.
Qed.

End RowsFacts.

Lemma column_changes_empty_snapshot_witness :
  compare_column_changes ([] : list (gmap string Z))
    [ {[ "id" := 1%Z; "name" := 7%Z ]} ] = ∅
  /\ compare_column_changes [ ({[ "id" := 1%Z ]} : gmap string Z) ] [] = ∅.
Proof.
  split.
  - apply (column_changes_empty_snapshot (V:=Z)). now left.
  - apply (column_changes_empty_snapshot (V:=Z)). now right.
Defined.

(** ** The outcome of the validation *)

Lemma validate_generated_query_cases (q : string) :
  (exists t,
      validate_generated_query q = (true, None, Some t)
      /\ get_query_type q = Some t
      /\ In t ["SELECT"; "INSERT"; "UPDATE"; "DELETE"; "ALTER"]
      /\ passes_denylist q)
  \/ (exists message,
         validate_generated_query q = (false, Some message, None)
         /\ In message
              [ "DROP DATABASE is not allowed"; "TRUNCATE is not allowed";
                "Multiple statements not allowed";
                "DELETE statements must include a WHERE clause";
                "Could not determine query type" ]).
Proof.
  unfold validate_generated_query, passes_denylist, validate_query,
    DANGEROUS_PATTERNS. cbn [first_dangerous].
  destruct (found (re_search I_ drop_database _));
    [right; eexists; split; [reflexivity | cbn; tauto]|].
  destruct (found (re_search I_ truncate _));
    [right; eexists; split; [reflexivity | cbn; tauto]|].
  destruct (found (re_search I_ second_statement _));
    [right; eexists; split; [reflexivity | cbn; tauto]|].
  cbn [negb]. unfold require_where_for_delete.
  assert (T : (exists t, get_query_type q = Some t
                         /\ In t ["SELECT"; "INSERT"; "UPDATE"; "DELETE"; "ALTER"])
              \/ get_query_type q = None).
  { unfold get_query_type, QUERY_PATTERNS. cbn [first_type].
    repeat match goal with
           | |- context [if ?b then _ else _] => destruct b
           end; try (left; eexists; split; [reflexivity | cbn; tauto]).
    now right. }
  destruct (found (re_search I_ (leading "delete") _)).
  - destruct (found (re_search I_ where_kw _)); cbn [negb].
    + destruct T as [[t [-> Ht]] | ->].
      * left. exists t. repeat split; assumption.
      * right. eexists. split; [reflexivity | cbn; tauto].
    + right. eexists. split; [reflexivity | cbn; tauto].
  - cbn [negb]. destruct T as [[t [-> Ht]] | ->].
    + left. exists t. repeat split; assumption.
    + right. eexists. split; [reflexivity | cbn; tauto].
Qed.

(** X1.  The validation has two kinds of outcome and no other: an
    acceptance, without message and with one of the five statement kinds,
    which is the kind [get_query_type] gives; or a rejection, without
    kind and with one of the five messages of the rules. *)
Theorem validate_generated_query_outcome (q : string) :
  (exists t,
      validate_generated_query q = (true, None, Some t)
      /\ get_query_type q = Some t
      /\ In t ["SELECT"; "INSERT"; "UPDATE"; "DELETE"; "ALTER"]
      /\ passes_denylist q)
  \/ (exists message,
         validate_generated_query q = (false, Some message, None)
         /\ In message
              [ "DROP DATABASE is not allowed"; "TRUNCATE is not allowed";
                "Multiple statements not allowed";
                "DELETE statements must include a WHERE clause";
                "Could not determine query type" ]).
Proof. exact (validate_generated_query_cases q). Qed.

(** X2.  Every kind the validation accepts is a read or a write, and not
    both: SELECT is the one read, the four others are writes, so the two
    branches of the executor cover the accepted texts. *)
Theorem accepted_kind_read_or_write (q : string) e (t : option string) :
  validate_generated_query q = (true, e, t) ->
  is_read_query t = negb (is_write_query t)
  /\ is_read_query t = QueryExecutor.is_type t "SELECT"
  /\ (is_read_query t = true <-> get_query_type q = Some "SELECT").
Proof.
  intros V. destruct (validate_generated_query_cases q) as
    [[ty [V' [G [I _]]]] | [m [V' _]]]; rewrite V in V'; [|discriminate].
  injection V' as -> ->. rewrite G. cbn in I.
  destruct I as [<- | [<- | [<- | [<- | [<- | []]]]]]; cbn;
    (repeat split; try reflexivity; try discriminate; intros; congruence).
Qed.

Lemma accepted_kind_read_or_write_witness :
  validate_generated_query "ALTER TABLE users ADD COLUMN age int"
  = (true, None, Some "ALTER")
  /\ is_read_query (Some "ALTER") = negb (is_write_query (Some "ALTER")).
Proof.
  split; [vm_compute; reflexivity|].
  apply (accepted_kind_read_or_write "ALTER TABLE users ADD COLUMN age int" None).
  vm_compute. reflexivity.
Defined.

(** ** The calls of the two execution paths *)





(** ** The executor *)


Lemma execute_query_accepted (session : AsyncSession) (q t : string) :
  validate_generated_query q = (true, None, Some t) ->
  QueryExecutor.execute_query session q
  = if String.eqb t "SELECT" then
      bind (execute_read_only session q)
        (fun '(success, result, error) =>
           if (success : bool) then
             let rows := match result with Rows rs => rs | _ => [] end in
             ret [ ("success", PBool true); ("query_type", PStr t);
                   ("data", PRows rows);
                   ("rows_returned", PInt (Z.of_nat (length rows)));
                   ("error", PNone) ]
           else
             ret [ ("success", PBool false); ("query_type", PStr t);
                   ("error", opt_str error); ("data", PNone);
                   ("rows_returned", PInt 0) ])
    else
      bind (execute_with_transaction session q)
        (fun '(success, rows_affected, error) =>
           if (success : bool) then
             ret [ ("success", PBool true); ("query_type", PStr t);
                   ("affected_rows",
                    PInt (match rows_affected with Count n => n | _ => 0%Z end));
                   ("error", PNone) ]
           else
             ret [ ("success", PBool false); ("query_type", PStr t);
                   ("error", opt_str error); ("affected_rows", PInt 0) ]).
Proof.
  intros V. unfold QueryExecutor.execute_query. rewrite V. reflexivity.
Qed.

(** X5.  Whatever the executor sends to the session is the text it was
    given, sent once at most, and only after the validation accepted it:
    a rejected text leaves the log empty and is answered with the
    message of the rejection. *)
Theorem execute_query_sends_validated_text (session : AsyncSession)
    (q : string) (w : world session) :
  let r := invoke (QueryExecutor.execute_query session q) w in
  Forall (fun e => forall s, what e = Execute s -> s = q) (log_of r)
  /\ count is_statement (log_of r) <= 1
  /\ (log_of r <> [] ->
      exists t, validate_generated_query q = (true, None, Some t))
  /\ (forall message,
        validate_generated_query q = (false, Some message, None) ->
        log_of r = []
        /\ exists d, answer r = Returns d
                     /\ get d "success" = Some (PBool false)
                     /\ get d "error" = Some (PStr message)).
Proof.
  cbv zeta.
  destruct (validate_generated_query_cases q) as
    [[t [V _]] | [m [V _]]].
  - rewrite (execute_query_accepted session q t V).
    assert (N : forall message, (true, @None string, Some t)
                                <> (false, Some message, @None string))
      by (intros ?; discriminate).
    rewrite V.
    destruct (String.eqb t "SELECT").
    + unfold invoke, log_of, answer, bind, execute_read_only, try_except, bind,
        execute, fetchall, ask, ret.
      repeat next_answer;
        (split; [repeat constructor; simpl; intros; congruence|]);
        (split; [vm_compute; lia|]); (split; [eauto|]);
        intros refusal E; now apply N in E.
    + unfold invoke, log_of, answer, bind, execute_with_transaction,
        try_except, bind, execute, fetchall, rowcount, commit, rollback, ask, ret.
      repeat next_answer;
        (split; [repeat constructor; simpl; intros; congruence|]);
        (split; [vm_compute; lia|]); (split; [eauto|]);
        intros refusal E; now apply N in E.
  - unfold QueryExecutor.execute_query. rewrite V. cbn [negb].
    unfold invoke, log_of, answer, ret. simpl.
    split; [constructor|]. split; [vm_compute; lia|]. split; [congruence|].
    intros message E. injection E as <-. split; [reflexivity|].
    eexists. split; [reflexivity|]. split; reflexivity.
Qed.





(** ** More on the diff of two snapshots *)

Section RowDiffFacts.
Context {V : Type} `{Countable V}.

Local Abbreviation row := (gmap string V).
Local Abbreviation item := (string * V)%type.

Lemma row_tuple_eq (r1 r2 : row) : row_tuple r1 = row_tuple r2 -> r1 = r2.
Proof.
  intros E. rewrite <- (row_tuple_to_map r1), <- (row_tuple_to_map r2).
  now rewrite E.
Qed.

(** X8.  The counts of the diff split the two sets of distinct rows:
    the rows added and the rows unchanged make up the distinct rows of
    the later snapshot, the rows removed and the rows unchanged those of
    the earlier one; so a snapshot set against itself has nothing added,
    nothing removed and all its distinct rows unchanged. *)
Theorem row_diff_counts (A B : list (gmap string V)) :
  rows_added (calculate_row_diff A B) + rows_unchanged (calculate_row_diff A B)
  = size (list_to_set B : gset (gmap string V))
  /\ rows_removed (calculate_row_diff A B)
     + rows_unchanged (calculate_row_diff A B)
     = size (list_to_set A : gset (gmap string V))
  /\ rows_added (calculate_row_diff A A) = 0
  /\ rows_removed (calculate_row_diff A A) = 0
  /\ rows_unchanged (calculate_row_diff A A)
     = size (list_to_set A : gset (gmap string V)).
Proof.
  rewrite !rows_added_size, !rows_removed_size, !rows_unchanged_size.
  set (SA := list_to_set A : gset row). set (SB := list_to_set B : gset row).
  repeat split.
  - rewrite <- size_union by set_solver. f_equal. apply set_eq. intros r.
    destruct (decide (r ∈ SA)); set_solver.
  - rewrite <- size_union by set_solver. f_equal. apply set_eq. intros r.
    destruct (decide (r ∈ SB)); set_solver.
  - apply size_empty_iff. set_solver.
  - apply size_empty_iff. set_solver.
  - f_equal. set_solver.
Qed.

Lemma sample_rows (X Y : list row) (r : row) :
  r ∈ ((fun t => list_to_map t) <$>
         firstn 10 (elements ((list_to_set (row_tuple <$> X) : gset (list item))
                              ∖ list_to_set (row_tuple <$> Y)))
       : list row) ->
  r ∈ X /\ r ∉ Y.
Proof.
  intros Hr. apply list_elem_of_fmap in Hr as [t [-> Ht]].
  apply elem_of_take in Ht as [i [Ht _]]. apply list_elem_of_lookup_2 in Ht.
  apply elem_of_elements, elem_of_difference in Ht as [H1 H2].
  apply elem_of_list_to_set, list_elem_of_fmap in H1 as [r [-> Hr]].
  rewrite row_tuple_to_map. split; [exact Hr|].
  intros Hy. apply H2, elem_of_list_to_set, list_elem_of_fmap. now exists r.
Qed.

Lemma sample_rows_NoDup (X Y : list row) :
  NoDup ((fun t => list_to_map t) <$>
           firstn 10 (elements ((list_to_set (row_tuple <$> X) : gset (list item))
                                ∖ list_to_set (row_tuple <$> Y)))
         : list row).
Proof.
  apply NoDup_fmap_2_strong.
  - intros t1 t2 H1 H2 E.
    assert (G : forall t, t ∈ firstn 10 (elements
                  ((list_to_set (row_tuple <$> X) : gset (list item))
                   ∖ list_to_set (row_tuple <$> Y))) ->
                exists r : row, t = row_tuple r).
    { intros t Ht. apply elem_of_take in Ht as [i [Ht _]].
      apply list_elem_of_lookup_2 in Ht.
      apply elem_of_elements, elem_of_difference in Ht as [Ht _].
      apply elem_of_list_to_set, list_elem_of_fmap in Ht as [r [-> _]].
      now exists r. }
    destruct (G t1 H1) as [r1 ->]. destruct (G t2 H2) as [r2 ->].
    rewrite !row_tuple_to_map in E. now subst.
  - eapply sublist_NoDup; [|apply sublist_take].
    apply (NoDup_elements (C:=gset (list item))).
Qed.

(** X9.  The sample rows are rows of the snapshots: every row shown as
    added is a row of the later snapshot that the earlier one does not
    have, every row shown as removed is a row of the earlier snapshot
    that the later one does not have, and no row is shown twice. *)
Theorem row_diff_samples (A B : list (gmap string V)) :
  (forall r, r ∈ added_rows (calculate_row_diff A B) -> r ∈ B /\ r ∉ A)
  /\ (forall r, r ∈ removed_rows (calculate_row_diff A B) -> r ∈ A /\ r ∉ B)
  /\ NoDup (added_rows (calculate_row_diff A B))
  /\ NoDup (removed_rows (calculate_row_diff A B)).
Proof.
  unfold calculate_row_diff. cbn [added_rows removed_rows].
  split; [|split; [|split]].
  - intros r. apply sample_rows.
  - intros r. apply sample_rows.
  - apply sample_rows_NoDup.
  - apply sample_rows_NoDup.
Qed.

Lemma sample_lengths (X Y : list row) :
  length (added_rows (calculate_row_diff X Y))
  = Nat.min 10 (rows_added (calculate_row_diff X Y))
  /\ length (removed_rows (calculate_row_diff X Y))
     = Nat.min 10 (rows_removed (calculate_row_diff X Y)).
Proof.
  unfold calculate_row_diff. cbn [added_rows removed_rows rows_added rows_removed].
  now rewrite !length_fmap, !length_take.
Qed.

(** X10.  The counts of the diff see the snapshots as sets of rows: the
    order of the rows and their repetitions do not count.  Two pairs of
    snapshots with the same distinct rows have the same three counts,
    and samples of the same lengths: the length of a sample is the count
    it belongs to, or ten when the count is more. *)
Theorem row_diff_of_sets (A A' B B' : list (gmap string V)) :
  (list_to_set A : gset (gmap string V)) = list_to_set A' ->
  (list_to_set B : gset (gmap string V)) = list_to_set B' ->
  rows_added (calculate_row_diff A B) = rows_added (calculate_row_diff A' B')
  /\ rows_removed (calculate_row_diff A B) = rows_removed (calculate_row_diff A' B')
  /\ rows_unchanged (calculate_row_diff A B)
     = rows_unchanged (calculate_row_diff A' B')
  /\ length (added_rows (calculate_row_diff A B))
     = Nat.min 10 (rows_added (calculate_row_diff A' B'))
  /\ length (removed_rows (calculate_row_diff A B))
     = Nat.min 10 (rows_removed (calculate_row_diff A' B')).
Proof.
  intros EA EB.
  destruct (sample_lengths A B) as [La Lr]. rewrite La, Lr.
  rewrite !rows_added_size, !rows_removed_size, !rows_unchanged_size, EA, EB.
  repeat split; reflexivity.
Qed.

(** X11.  The summary of a diff reads [No changes] exactly when the two
    snapshots hold the same distinct rows. *)
Theorem diff_summary_no_changes (A B : list (gmap string V)) :
  generate_diff_summary
    (Z.of_nat (rows_added (calculate_row_diff A B)))
    (Z.of_nat (rows_removed (calculate_row_diff A B))) 0
  = "No changes"
  <-> (list_to_set A : gset (gmap string V)) = list_to_set B.
Proof.
  rewrite rows_added_size, rows_removed_size.
  set (SA := list_to_set A : gset row). set (SB := list_to_set B : gset row).
  unfold generate_diff_summary, append_if. cbn [Z.ltb Z.compare].
  split.
  - intros E.
    destruct (0 <? Z.of_nat (size (SB ∖ SA)))%Z eqn:E1.
    { destruct (0 <? Z.of_nat (size (SA ∖ SB)))%Z; simpl in E;
        rewrite ?app_cons in E; discriminate. }
    destruct (0 <? Z.of_nat (size (SA ∖ SB)))%Z eqn:E2.
    { simpl in E. rewrite ?app_cons in E. discriminate. }
    apply Z.ltb_ge in E1, E2.
    assert (S1 : size (SB ∖ SA) = 0) by lia.
    assert (S2 : size (SA ∖ SB) = 0) by lia.
    apply size_empty_iff in S1, S2. apply set_eq. intros r.
    destruct (decide (r ∈ SA)), (decide (r ∈ SB)); set_solver.
  - intros ->. replace (SB ∖ SB) with (∅ : gset row) by set_solver.
    rewrite size_empty. reflexivity.
Qed.

End RowDiffFacts.

Lemma row_diff_of_sets_witness :
  let A := [ ({[ "id" := 1%Z ]} : gmap string Z); {[ "id" := 2%Z ]}; {[ "id" := 1%Z ]} ] in
  let A' := [ ({[ "id" := 2%Z ]} : gmap string Z); {[ "id" := 1%Z ]} ] in
  let B := [ ({[ "id" := 3%Z ]} : gmap string Z) ] in
  let B' := [ ({[ "id" := 3%Z ]} : gmap string Z); {[ "id" := 3%Z ]} ] in
  rows_added (calculate_row_diff A B) = rows_added (calculate_row_diff A' B')
  /\ rows_removed (calculate_row_diff A B) = rows_removed (calculate_row_diff A' B')
  /\ rows_unchanged (calculate_row_diff A B)
     = rows_unchanged (calculate_row_diff A' B')
  /\ length (added_rows (calculate_row_diff A B))
     = Nat.min 10 (rows_added (calculate_row_diff A' B'))
  /\ length (removed_rows (calculate_row_diff A B))
     = Nat.min 10 (rows_removed (calculate_row_diff A' B')).
Proof.
  apply (row_diff_of_sets (V:=Z)); set_solver.
Defined.

(** X12.  The summary reads [No changes] exactly when none of the three
    counts is positive. *)
Theorem generate_diff_summary_no_changes (rows_added rows_removed rows_modified : Z) :
  generate_diff_summary rows_added rows_removed rows_modified = "No changes"
  <-> (rows_added <= 0 /\ rows_removed <= 0 /\ rows_modified <= 0)%Z.
Proof.
  unfold generate_diff_summary, append_if.
  destruct (0 <? rows_added)%Z eqn:E1, (0 <? rows_removed)%Z eqn:E2,
    (0 <? rows_modified)%Z eqn:E3; simpl;
    rewrite ?app_cons;
    try apply Z.ltb_lt in E1; try apply Z.ltb_ge in E1;
    try apply Z.ltb_lt in E2; try apply Z.ltb_ge in E2;
    try apply Z.ltb_lt in E3; try apply Z.ltb_ge in E3;
    (split; [try discriminate; intros _; lia | try (intros; lia); reflexivity]).
Qed.

(** ** The diff by column *)

Section ColumnFacts.
Context {V : Type} `{Countable V}.

Local Abbreviation row := (gmap string V).

Lemma note_column_fold (b a : list row) (l : list string) :
  forall (m : gmap string (column_change (V:=V))) (c : string),
    foldl (note_column b a) m l !! c
    = if decide (c ∈ l /\ values_of c b ≠ values_of c a)
      then Some {| before := firstn 5 (values_of c b);
                   after := firstn 5 (values_of c a);
                   changed := true |}
      else m !! c.
Proof.
  induction l as [|x l IH]; intros m c.
  - destruct (decide _) as [[Hc _]|_]; [inversion Hc | reflexivity].
  - change (foldl (note_column b a) m (x :: l))
      with (foldl (note_column b a) (note_column b a m x) l).
    rewrite IH. unfold note_column.
    destruct (decide (c ∈ l /\ values_of c b ≠ values_of c a)) as [[Hl Hd]|N].
    + rewrite decide_True; [reflexivity|]. split; [now right | exact Hd].
    + destruct (decide (c = x)) as [->|Hcx].
      * case_bool_decide as Hd.
        -- rewrite lookup_insert_eq. rewrite decide_True; [reflexivity|].
           split; [now left | exact Hd].
        -- rewrite decide_False; [reflexivity|]. intros [_ Hd']. contradiction.
      * assert (E : (if bool_decide (values_of x b ≠ values_of x a)
                     then <[x:={| before := firstn 5 (values_of x b);
                                  after := firstn 5 (values_of x a);
                                  changed := true |}]> m
                     else m) !! c = m !! c).
        { case_bool_decide; [now rewrite lookup_insert_ne|reflexivity]. }
        rewrite E. rewrite decide_False; [reflexivity|].
        intros [Hc Hd]. apply N. split; [|exact Hd].
        apply elem_of_cons in Hc as [?|?]; [contradiction|assumption].
Qed.

Lemma all_columns_elem (rows : list row) (c : string) :
  forall X : gset string,
    c ∈ foldl (fun acc (r : row) => acc ∪ dom r) X rows
    <-> c ∈ X \/ exists r, r ∈ rows /\ c ∈ dom r.
Proof.
  induction rows as [|r rows IH]; intros X; simpl.
  - split; [now left | intros [?|[r [Hr _]]]; [assumption | inversion Hr]].
  - rewrite IH, elem_of_union. split.
    + intros [[?|?]|[r' [? ?]]]; [now left | right; exists r | right; exists r'];
        (split; [|assumption]); [now left | now right].
    + intros [?|[r' [Hr ?]]]; [now left; left|].
      apply elem_of_cons in Hr as [->|?]; [left; now right | right; now exists r'].
Qed.

Lemma values_of_none (rows : list row) (c : string) :
  (forall r, r ∈ rows -> c ∉ dom r) -> values_of c rows = [].
Proof.
  induction rows as [|r rows IH]; intros N; [reflexivity|].
  unfold values_of in *. simpl.
  assert (E : r !! c = None).
  { apply not_elem_of_dom, N. now left. }
  rewrite E. apply IH. intros r' Hr'. apply N. now right.
Qed.

Lemma column_changes_lookup_gen (before_rows after_rows : list row) (c : string) :
  before_rows <> [] -> after_rows <> [] ->
  compare_column_changes before_rows after_rows !! c
  = if decide (values_of c before_rows ≠ values_of c after_rows)
    then Some {| before := firstn 5 (values_of c before_rows);
                 after := firstn 5 (values_of c after_rows);
                 changed := true |}
    else None.
Proof.
  intros Nb Na. unfold compare_column_changes.
  destruct before_rows as [|b0 bs]; [congruence|].
  destruct after_rows as [|a0 as_]; [congruence|].
  rewrite note_column_fold, lookup_empty.
  set (b := b0 :: bs). set (a := a0 :: as_).
  destruct (decide (values_of c b ≠ values_of c a)) as [Hd|Hd].
  - rewrite decide_True; [reflexivity|]. split; [|exact Hd].
    apply elem_of_elements, all_columns_elem. right.
    destruct (decide (Exists (fun r : row => c ∈ dom r) (b ++ a)%list)) as [E|N];
      [now apply Exists_exists in E|]. exfalso. apply Hd.
    rewrite (values_of_none b), (values_of_none a); [reflexivity| |];
      intros r Hr Hc; apply N, Exists_exists; exists r; (split; [|exact Hc]);
      apply elem_of_app; [now right | now left].
  - rewrite decide_False; [reflexivity|]. now intros [_ ?].
Qed.

(** X13.  With two snapshots that both have rows, a column is reported
    exactly when the list of its values, taken row after row over the
    rows that have the column, is not the same before and after; the
    entry then holds the first five values of each list and the mark
    [changed]. *)
Theorem column_changes_lookup (before_rows after_rows : list (gmap string V))
    (c : string) :
  before_rows <> [] -> after_rows <> [] ->
  compare_column_changes before_rows after_rows !! c
  = if decide (values_of c before_rows ≠ values_of c after_rows)
    then Some {| before := firstn 5 (values_of c before_rows);
                 after := firstn 5 (values_of c after_rows);
                 changed := true |}
    else None.
Proof. apply column_changes_lookup_gen. Qed.

(** X14.  A snapshot set against itself reports no column; and setting
    two snapshots the other way round reports the same columns, with the
    two samples of each entry exchanged. *)
Theorem column_changes_swap (before_rows after_rows : list (gmap string V)) :
  compare_column_changes before_rows before_rows = ∅
  /\ forall c,
      compare_column_changes after_rows before_rows !! c
      = (fun e => {| before := after e; after := before e;
                     changed := changed e |})
          <$> compare_column_changes before_rows after_rows !! c.
Proof.
  split.
  - destruct before_rows as [|b0 bs] eqn:E; [reflexivity|]. rewrite <- E.
    apply map_eq. intros c. rewrite column_changes_lookup_gen, lookup_empty
      by (rewrite E; discriminate).
    now rewrite decide_False by (intros N; now apply N).
  - intros c. destruct before_rows as [|b0 bs] eqn:Eb.
    { destruct after_rows; reflexivity. }
    destruct after_rows as [|a0 as_] eqn:Ea; [reflexivity|].
    rewrite <- Eb, <- Ea.
    rewrite !column_changes_lookup_gen by (rewrite ?Eb, ?Ea; discriminate).
    destruct (decide (values_of c before_rows ≠ values_of c after_rows)) as [D|D].
    + rewrite decide_True by (intros E'; apply D; now rewrite E'). reflexivity.
    + rewrite decide_False; [reflexivity|]. intros D'. apply D. intros E'.
      apply D'. now rewrite E'.
Qed.

End ColumnFacts.

Lemma column_changes_lookup_witness :
  compare_column_changes
    [ ({[ "id" := 1%Z; "age" := 30%Z ]} : gmap string Z) ]
    [ ({[ "id" := 1%Z; "age" := 31%Z ]} : gmap string Z) ] !! "age"
  = Some {| before := [30%Z]; after := [31%Z]; changed := true |}.
Proof.
  rewrite (column_changes_lookup (V:=Z)) by discriminate.
  vm_compute. reflexivity.
Defined.

(** ** Substitution *)

Lemma sub_from_skip (fl : flags) (r : re) (repl : string) :
  forall u t pv,
    sub_from fl r repl (String.length u) pv (u ++ t)
    = sub_from fl r repl 0 (last_of pv u) t.
Proof.
  induction u as [|x u IH]; intros t pv; [reflexivity|].
  rewrite app_cons. simpl. apply IH.
Qed.

Lemma sub_from_copy (fl : flags) (r : re) (repl : string) :
  forall pre t pv,
    fails_along (match_at fl r) pv pre t ->
    sub_from fl r repl 0 pv (pre ++ t)
    = pre ++ sub_from fl r repl 0 (last_of pv pre) t.
Proof.
  induction pre as [|x pre IH]; intros t pv F; [reflexivity|].
  destruct F as [F1 F2]. rewrite !app_cons. cbn [sub_from].
  rewrite F1. simpl last_of. now rewrite (IH _ _ F2).
Qed.

Lemma sub_from_id (fl : flags) (r : re) (repl s : string) (pv : option ascii) :
  fails_along (match_at fl r) pv s "" -> sub_from fl r repl 0 pv s = s.
Proof.
  intros F. rewrite <- (app_empty_r s) at 1.
  rewrite (sub_from_copy _ _ _ _ _ _ F). simpl. apply app_empty_r.
Qed.

Lemma sub_from_hit (fl : flags) (r : re) (repl : string) (x : ascii)
    (u t : string) (pv : option ascii) g pv' :
  match_at fl r (Cursor pv (String x u ++ t)) = Some (g, Cursor pv' t) ->
  sub_from fl r repl 0 pv (String x u ++ t)
  = repl ++ sub_from fl r repl 0 (last_of (Some x) u) t.
Proof.
  intros M. rewrite app_cons in *. cbn [sub_from]. rewrite M. cbn [rest].
  replace (String.length (String x (u ++ t)) - String.length t)
    with (S (String.length u)) by (simpl; rewrite length_app_str; lia).
  now rewrite sub_from_skip.
Qed.

Lemma fails_along_all (k : cursor -> result) :
  (forall p, k p = None) -> forall pre t pv, fails_along k pv pre t.
Proof.
  intros K. induction pre as [|x pre IH]; intros t pv; [exact I|].
  split; [apply K | apply IH].
Qed.

Lemma fails_along_after (k : cursor -> result) :
  (forall c s, k (Cursor (Some c) s) = None) ->
  forall pre t c, fails_along k (Some c) pre t.
Proof.
  intros K. induction pre as [|x pre IH]; intros t c; [exact I|].
  split; [apply K | apply IH].
Qed.

(** A pattern that opens with [^], without [re.MULTILINE], matches
    nothing after the first character. *)
Lemma sub_from_anchored (fl : flags) (r : re) (repl s : string) (c : ascii) :
  MULTILINE fl = false ->
  sub_from fl (Seq Bol r) repl 0 (Some c) s = s.
Proof.
  intros Hm. apply sub_from_id, fails_along_after.
  intros c' s'. unfold match_at. cbn [run]. unfold at_bol. cbn [prev].
  now rewrite Hm.
Qed.

Lemma last_of_some (x : ascii) (u : string) (pv : option ascii) :
  exists c, last_of pv (String x u) = Some c.
Proof.
  simpl. clear pv. revert x. induction u as [|y u IH]; intros x; simpl; eauto.
Qed.

Lemma lit_none_cs (w s : string) (pv : option ascii) k :
  starts_with w s = false -> lit false w k (Cursor pv s) = None.
Proof.
  revert s pv. induction w as [|a w IH]; intros s pv E; [discriminate|].
  destruct s as [|x s]; [reflexivity|]. simpl in *. unfold chr_eq.
  destruct (eqc a x); [|reflexivity]. now apply IH.
Qed.

Lemma find_str_fails (w : string) k : forall pre t pv,
  find_str w (pre ++ t) = Some (String.length pre) ->
  fails_along (lit false w k) pv pre t.
Proof.
  induction pre as [|x pre IH]; intros t pv F; [exact I|].
  rewrite app_cons in F. simpl in F.
  destruct (starts_with w (String x (pre ++ t))) eqn:S0; [discriminate|].
  destruct (find_str w (pre ++ t)) as [n|] eqn:F1; [|discriminate].
  simpl in F. injection F as ->. split.
  - now apply lit_none_cs.
  - now apply IH.
Qed.

Lemma str_in_fails (w : string) k : forall s pv,
  str_in w s = false -> fails_along (lit false w k) pv s "".
Proof.
  induction s as [|x s IH]; intros pv F; [exact I|].
  simpl in F. apply orb_false_elim in F as [F1 F2]. split.
  - rewrite app_empty_r. now apply lit_none_cs.
  - now apply IH.
Qed.

Lemma find_ci_none_fails (w : string) k : forall s pv,
  find_ci w s = None -> fails_along (lit true w k) pv s "".
Proof.
  induction s as [|x s IH]; intros pv F; [exact I|].
  simpl in F. destruct (starts_ci w (String x s)) eqn:S0; [discriminate|].
  destruct (find_ci w s) eqn:F1; [discriminate|]. split.
  - rewrite app_empty_r. now apply lit_none.
  - now apply IH.
Qed.

(** ** Comments *)

Ltac norm_app_in H :=
  repeat (rewrite app_cons in H || rewrite app_assoc_str in H || rewrite app_empty_l in H).

Ltac norm_app :=
  repeat (rewrite app_cons || rewrite app_assoc_str || rewrite app_empty_l).

Lemma match_at_lit (fl : flags) (w : string) (r : re) :
  match_at fl (Seq (Lit w) r)
  = lit (IGNORECASE fl) w (run fl r (fun g p' => Some (g, p')) []).
Proof. reflexivity. Qed.

(** X15.  A text with no [--] and no [/*] in it has no comment: it is its
    own comment-stripped form. *)
Theorem strip_comments_plain (q : string) :
  str_in "--" q = false -> str_in "/*" q = false -> strip_comments q = q.
Proof.
  intros L B. unfold strip_comments, re_sub, line_comment, block_comment.
  rewrite (sub_from_id M_ _ "" q None)
    by (rewrite match_at_lit; now apply str_in_fails).
  apply sub_from_id. rewrite match_at_lit. now apply str_in_fails.
Qed.

Lemma strip_comments_plain_witness :
  strip_comments "SELECT a - b, c / d * 2 FROM t" = "SELECT a - b, c / d * 2 FROM t".
Proof.
  apply (strip_comments_plain "SELECT a - b, c / d * 2 FROM t"); vm_compute; reflexivity.
Defined.

Lemma eol_inside (c : string) : forall t pv (f : cursor -> caps * cursor),
  all_in same_line c = true ->
  fails_along (fun p => if at_eol M_ p then Some (f p) else None) pv c t.
Proof.
  induction c as [|x c IH]; intros t pv f A; [exact I|].
  simpl in A. apply andb_prop in A as [Hx A]. split; [|now apply IH].
  unfold at_eol. cbn [rest]. unfold same_line in Hx.
  destruct (eqc x newline); [discriminate|]. now destruct (c ++ t).
Qed.

Lemma lit_cs (w : string) : forall (t : string) (pv : option ascii) k,
  lit false w k (Cursor pv (w ++ t)) = k (Cursor (last_of pv w) t).
Proof.
  induction w as [|a w IH]; intros t pv k; [reflexivity|].
  rewrite app_cons. simpl. unfold chr_eq. rewrite eqc_refl. apply IH.
Qed.

Lemma all_in_ext (m m' : ascii -> bool) (s : string) :
  (forall x, m x = m' x) -> all_in m s = all_in m' s.
Proof. intros E. induction s as [|x s IH]; simpl; [reflexivity|]. now rewrite E, IH. Qed.

Lemma all_in_true (m : ascii -> bool) (s : string) :
  (forall x, m x = true) -> all_in m s = true.
Proof. intros E. induction s as [|x s IH]; simpl; [reflexivity|]. now rewrite E, IH. Qed.

Lemma line_comment_tail (a c : string) :
  find_str "--" (a ++ "--" ++ c) = Some (String.length a) ->
  all_in same_line c = true ->
  re_sub M_ line_comment "" (a ++ "--" ++ c) = a.
Proof.
  intros F C. unfold re_sub.
  rewrite sub_from_copy
    by (unfold line_comment; rewrite match_at_lit; now apply find_str_fails).
  rewrite <- (app_empty_r ("--" ++ c)).
  erewrite (sub_from_hit M_ line_comment "" "-" ("-" ++ c) "").
  - simpl. apply app_empty_r.
  - unfold line_comment. rewrite match_at_lit.
    change (String "-" ("-" ++ c) ++ "") with ("--" ++ (c ++ "")).
    rewrite lit_cs. cbn [run IGNORECASE M_ prev rest].
    apply rep_lazy_first.
    + rewrite <- C. now apply all_in_ext.
    + now apply eol_inside.
    + reflexivity.
Qed.

Lemma strip_comments_line_tail (a c : string) :
  find_str "--" (a ++ "--" ++ c) = Some (String.length a) ->
  all_in same_line c = true ->
  str_in "/*" a = false ->
  strip_comments (a ++ "--" ++ c) = a.
Proof.
  intros F C B. unfold strip_comments. rewrite line_comment_tail by assumption.
  unfold re_sub, block_comment.
  apply sub_from_id. rewrite match_at_lit. now apply str_in_fails.
Qed.

(** X16.  A line comment that ends the text is dropped whole: when the
    first [--] of the text has no line break after it, and the text
    before it has no [/*], the comment-stripped form is the text before
    that [--], whatever the comment holds. *)
Theorem strip_comments_last_line (a c : string) :
  find_str "--" (a ++ "--" ++ c) = Some (String.length a) ->
  all_in same_line c = true ->
  str_in "/*" a = false ->
  strip_comments (a ++ "--" ++ c) = a.
Proof. exact (strip_comments_line_tail a c). Qed.

Lemma strip_comments_last_line_witness :
  strip_comments ("SELECT 1 " ++ "--" ++ " drop database; /* x") = "SELECT 1 ".
Proof.
  apply (strip_comments_last_line "SELECT 1 " " drop database; /* x");
    vm_compute; reflexivity.
Defined.

(** X17.  A block comment is cut out and the text around it is joined:
    when the text has no [--], its first [/*] is followed by a [*/], and
    no [/*] comes after that [*/], the comment-stripped form is the text
    before the [/*] followed by the text after the [*/]; the comment may
    run over several lines. *)
Theorem strip_comments_block (a c b : string) :
  str_in "--" (a ++ "/*" ++ c ++ "*/" ++ b) = false ->
  find_str "/*" (a ++ "/*" ++ c ++ "*/" ++ b) = Some (String.length a) ->
  find_str "*/" (c ++ "*/" ++ b) = Some (String.length c) ->
  str_in "/*" b = false ->
  strip_comments (a ++ "/*" ++ c ++ "*/" ++ b) = a ++ b.
Proof.
  intros L F E B. unfold strip_comments, re_sub.
  rewrite (sub_from_id M_ _ "" _ None)
    by (unfold line_comment; rewrite match_at_lit; now apply str_in_fails).
  rewrite sub_from_copy
    by (unfold block_comment; rewrite match_at_lit; now apply find_str_fails).
  f_equal.
  replace ("/*" ++ c ++ "*/" ++ b) with (String "/" ("*" ++ c ++ "*/") ++ b)
    by (norm_app; reflexivity).
  erewrite (sub_from_hit S_ block_comment "" "/" ("*" ++ c ++ "*/") b).
  - rewrite app_empty_l. apply sub_from_id.
    unfold block_comment. rewrite match_at_lit. now apply str_in_fails.
  - unfold block_comment. rewrite match_at_lit.
    replace (String "/" ("*" ++ c ++ "*/") ++ b) with ("/*" ++ c ++ "*/" ++ b)
      by (norm_app; reflexivity).
    rewrite lit_cs. cbn [run IGNORECASE S_ prev rest].
    apply rep_lazy_first.
    + now apply all_in_true.
    + now apply find_str_fails.
    + rewrite lit_cs. reflexivity.
Qed.

Lemma strip_comments_block_witness :
  strip_comments ("SELECT a " ++ "/*" ++ String newline "truncate * " ++ "*/" ++ "FROM t")
  = "SELECT a " ++ "FROM t".
Proof.
  apply (strip_comments_block "SELECT a " (String newline "truncate * ") "FROM t");
    vm_compute; reflexivity.
Defined.

Lemma starts_with_app (w a t : string) :
  starts_with w a = true -> starts_with w (a ++ t) = true.
Proof.
  revert a. induction w as [|c w IH]; intros [|x a] E; try discriminate;
    try reflexivity.
  rewrite app_cons. simpl in *. apply andb_prop in E as [-> E]. now apply IH.
Qed.

Lemma find_str_first (c : ascii) (w : string) : forall a t,
  find_str (String c w) (a ++ t) = Some (String.length a) ->
  str_in (String c w) a = false.
Proof.
  induction a as [|x a IH]; intros t F; [reflexivity|].
  rewrite app_cons in F. cbn [find_str] in F.
  destruct (starts_with (String c w) (String x (a ++ t))) eqn:S0; [discriminate|].
  destruct (find_str (String c w) (a ++ t)) as [n|] eqn:F1; [|discriminate].
  simpl in F. injection F as ->. cbn [str_in]. rewrite (IH _ F1), orb_false_r.
  destruct (starts_with (String c w) (String x a)) eqn:S1; [|reflexivity].
  apply (starts_with_app _ _ t) in S1. rewrite app_cons in S1. congruence.
Qed.

(** X18.  What a closing line comment holds has no part in the verdict:
    a text that ends in a line comment, with no other comment in it, is
    judged as the text before the comment is. *)
Theorem validate_generated_query_last_comment (a c : string) :
  find_str "--" (a ++ "--" ++ c) = Some (String.length a) ->
  all_in same_line c = true ->
  str_in "/*" a = false ->
  validate_generated_query (a ++ "--" ++ c) = validate_generated_query a.
Proof.
  intros F C B. apply validate_generated_query_cleaned.
  rewrite strip_comments_line_tail by assumption.
  symmetry. unfold strip_comments, re_sub, line_comment, block_comment.
  rewrite (sub_from_id M_ _ "" a None).
  - apply sub_from_id. rewrite match_at_lit. now apply str_in_fails.
  - rewrite match_at_lit. apply str_in_fails. now apply (find_str_first _ _ a _ F).
Qed.

Lemma validate_generated_query_last_comment_witness :
  validate_generated_query ("SELECT 1 " ++ "--" ++ " truncate; drop database x")
  = validate_generated_query "SELECT 1 ".
Proof.
  apply (validate_generated_query_last_comment "SELECT 1 " " truncate; drop database x");
    vm_compute; reflexivity.
Defined.

(** ** Previews of DELETE and UPDATE *)

Lemma stops_keyword (m : ascii -> bool) (u w t : string) :
  lower_str u = lower_str w -> w <> "" -> stops m (lower_str w) = true ->
  (forall x, m (lower x) = m x) ->
  stops m (u ++ t) = true.
Proof.
  intros E Hw S0 L. destruct u as [|x u]; [destruct w; [congruence|discriminate]|].
  rewrite app_cons. simpl. rewrite <- E in S0. simpl in S0. now rewrite <- L.
Qed.

Lemma delete_from_match (d ws f more : string) (x : ascii) :
  lower_str (String x d) = "delete" -> blank ws = true -> lower_str f = "from" ->
  stops isword more = true ->
  exists g pv,
    match_at I_ delete_from (Cursor None (String x (d ++ ws ++ f) ++ more))
    = Some (g, Cursor pv more).
Proof.
  intros Hd Hws Hf Hr. apply blank_inv in Hws as (y & ws' & -> & Hy & Aws).
  unfold match_at, delete_from. cbn [run at_bol prev IGNORECASE I_ mem].
  replace (String x (d ++ String y ws' ++ f) ++ more)
    with (String x d ++ String y ws' ++ f ++ more)
    by (norm_app; reflexivity).
  rewrite (lit_ci "DELETE" (String x d)) by (rewrite Hd; reflexivity).
  rewrite app_cons. cbn [rest]. rewrite Hy.
  assert (Sf : stops isspace (f ++ more) = true).
  { apply (stops_keyword isspace f "FROM");
      [rewrite Hf; reflexivity|discriminate|reflexivity|apply isspace_lower]. }
  eexists _, _. erewrite rep_greedy_max; [reflexivity|].
  rewrite skip_app by assumption. rewrite (lit_ci "FROM" f) by (rewrite Hf; reflexivity).
  unfold at_wordb.
  rewrite word_before_keyword
    by (try rewrite Hf; (reflexivity || (destruct f; simpl in *; congruence))).
  rewrite word_after_stops, Hr. reflexivity.
Qed.

Lemma delete_head_conversion (d ws f more : string) :
  lower_str d = "delete" -> blank ws = true -> lower_str f = "from" ->
  stops isword more = true ->
  convert_delete_to_select (d ++ ws ++ f ++ more) = "SELECT * FROM" ++ more.
Proof.
  intros Hd Hws Hf Hr. destruct d as [|x d]; [discriminate|].
  destruct (delete_from_match d ws f more x Hd Hws Hf Hr) as (g & pv & M).
  unfold convert_delete_to_select, re_sub.
  replace (String x d ++ ws ++ f ++ more)
    with (String x (d ++ ws ++ f) ++ more)
    by (norm_app; reflexivity).
  rewrite (sub_from_hit _ _ _ _ _ _ _ _ _ M). f_equal.
  destruct (last_of_some x (d ++ ws ++ f) None) as [c Hc]. simpl in Hc.
  rewrite Hc. unfold delete_from. now apply sub_from_anchored.
Qed.

(** X19.  The preview of a DELETE swaps its head for a SELECT and keeps
    the rest to the letter: DELETE, white space and FROM, in any letter
    case, at the very start of the text and with no word character after
    FROM, become [SELECT * FROM]; what follows is unchanged. *)
Theorem convert_delete_to_select_head (d ws f more : string) :
  lower_str d = "delete" -> blank ws = true -> lower_str f = "from" ->
  stops isword more = true ->
  convert_delete_to_select (d ++ ws ++ f ++ more) = "SELECT * FROM" ++ more.
Proof. exact (delete_head_conversion d ws f more). Qed.

Lemma convert_delete_to_select_head_witness :
  convert_delete_to_select ("Delete" ++ String newline "  " ++ "from" ++ " t WHERE id = 1;")
  = "SELECT * FROM" ++ " t WHERE id = 1;".
Proof.
  apply (convert_delete_to_select_head "Delete" (String newline "  ") "from"
           " t WHERE id = 1;"); vm_compute; reflexivity.
Defined.

(** X20.  A text that does not open with DELETE, in any letter case, is
    its own DELETE preview: white space or a comment before the keyword
    is enough to leave the statement as it is. *)
Theorem convert_delete_to_select_other (q : string) :
  starts_ci "DELETE" q = false -> convert_delete_to_select q = q.
Proof.
  intros H. unfold convert_delete_to_select, re_sub.
  destruct q as [|x q]; [reflexivity|]. cbn [sub_from].
  assert (M : match_at I_ delete_from (Cursor None (String x q)) = None).
  { unfold match_at, delete_from. cbn [run at_bol prev IGNORECASE I_].
    now apply lit_none. }
  rewrite M. f_equal. unfold delete_from. now apply sub_from_anchored.
Qed.

Lemma convert_delete_to_select_other_witness :
  convert_delete_to_select " DELETE FROM t" = " DELETE FROM t".
Proof. apply (convert_delete_to_select_other " DELETE FROM t"); reflexivity. Defined.

(** A match is reported by the continuation, at a position further on in
    the text: where the continuation fails at every such position, the
    pattern fails. *)

Lemma suffix_of_refl (s : string) : suffix_of s s.
Proof. now exists "". Qed.

Lemma suffix_of_tail (x : ascii) (t s : string) :
  suffix_of (String x t) s -> suffix_of t s.
Proof.
  intros [u ->]. exists (u ++ String x ""). now norm_app.
Qed.

Lemma suffix_of_app (u t s : string) : suffix_of (u ++ t) s -> suffix_of t s.
Proof. intros [v ->]. exists (v ++ u). now rewrite app_assoc_str. Qed.

Lemma lit_fails (s : string) (ic : bool) (k : cursor -> result) :
  (forall p, suffix_of (rest p) s -> k p = None) ->
  forall w p, suffix_of (rest p) s -> lit ic w k p = None.
Proof.
  intros K. induction w as [|a w IH]; intros [pv t] S0; [now apply K|].
  cbn [lit rest] in *. destruct t as [|x t]; [reflexivity|].
  destruct (chr_eq ic a x); [|reflexivity].
  apply IH. cbn [rest]. now apply suffix_of_tail in S0.
Qed.

Lemma rep_greedy_fails (s : string) (m : ascii -> bool) (k : cursor -> result) :
  (forall p, suffix_of (rest p) s -> k p = None) ->
  forall t pv, suffix_of t s -> rep_greedy m k pv t = None.
Proof.
  intros K. induction t as [|x t IH]; intros pv S0; cbn [rep_greedy].
  - now apply K.
  - rewrite IH by now apply suffix_of_tail in S0.
    rewrite (K (Cursor pv (String x t))) by exact S0. now destruct (m x).
Qed.

Lemma rep_lazy_fails (s : string) (m : ascii -> bool) (k : cursor -> result) :
  (forall p, suffix_of (rest p) s -> k p = None) ->
  forall t pv, suffix_of t s -> rep_lazy m k pv t = None.
Proof.
  intros K. induction t as [|x t IH]; intros pv S0; cbn [rep_lazy].
  - now rewrite (K (Cursor pv "")) by exact S0.
  - rewrite (K (Cursor pv (String x t))) by exact S0.
    rewrite IH by now apply suffix_of_tail in S0. now destruct (m x).
Qed.

Lemma run_fails (fl : flags) (s : string) (r : re) :
  forall k,
    (forall g p, suffix_of (rest p) s -> k g p = None) ->
    forall g p, suffix_of (rest p) s -> run fl r k g p = None.
Proof.
  induction r as [w|c|c least_one greedy|r IH| | | |r1 IH1 r2 IH2|r1 IH1 r2 IH2|n r IH];
    intros k K g p S0; cbn [run].
  - apply (lit_fails s); [intros; now apply K|exact S0].
  - destruct p as [pv [|x t]]; cbn [rest] in *; [reflexivity|].
    destruct (mem fl c x); [|reflexivity]. apply K. cbn [rest].
    now apply suffix_of_tail in S0.
  - assert (G : forall t pv, suffix_of t s ->
                  (if greedy then rep_greedy (mem fl c) (k g)
                   else rep_lazy (mem fl c) (k g)) pv t = None).
    { intros t pv St. destruct greedy;
        [apply (rep_greedy_fails s)|apply (rep_lazy_fails s)];
        try exact St; intros; now apply K. }
    destruct least_one; [|now apply G].
    destruct p as [pv [|x t]]; cbn [rest] in *; [reflexivity|].
    destruct (mem fl c x); [|reflexivity]. apply G. now apply suffix_of_tail in S0.
  - rewrite IH by assumption. now apply K.
  - destruct (at_bol fl p); [now apply K|reflexivity].
  - destruct (at_eol fl p); [now apply K|reflexivity].
  - destruct (at_wordb p); [now apply K|reflexivity].
  - apply IH1; [|exact S0]. intros g' p' S1. now apply IH2.
  - rewrite IH1 by assumption. now apply IH2.
  - apply IH; [|exact S0]. intros g' p' S1. now apply K.
Qed.

Lemma find_ci_suffix (w s : string) :
  find_ci w s = None -> forall t, suffix_of t s -> starts_ci w t = false.
Proof.
  intros F t [u ->]. revert F. induction u as [|x u IH]; intros F.
  - rewrite app_empty_l in F. destruct t; simpl in F;
      destruct (starts_ci w _); congruence.
  - rewrite app_cons in F. simpl in F.
    destruct (starts_ci w (String x (u ++ t))); [discriminate|].
    destruct (find_ci w (u ++ t)); [discriminate|]. now apply IH.
Qed.

Lemma find_ci_suffix_none (w s t : string) :
  find_ci w s = None -> suffix_of t s -> find_ci w t = None.
Proof.
  intros F S0. induction t as [|x t IH].
  - simpl. now rewrite (find_ci_suffix w s F "" S0).
  - simpl. rewrite (find_ci_suffix w s F _ S0).
    now rewrite IH by now apply suffix_of_tail in S0.
Qed.

Lemma seq_fails (fl : flags) (s : string) (r1 r2 : re) k :
  (forall g p, suffix_of (rest p) s -> run fl r2 k g p = None) ->
  forall g p, suffix_of (rest p) s -> run fl (Seq r1 r2) k g p = None.
Proof. intros K g p S0. cbn [run]. now apply (run_fails fl s r1). Qed.

Lemma word_fails (fl : flags) (s w : string) k :
  IGNORECASE fl = true -> find_ci w s = None ->
  forall g p, suffix_of (rest p) s -> run fl (Lit w) k g p = None.
Proof.
  intros Hi F g [pv t] S0. cbn [run]. rewrite Hi. apply lit_none.
  now apply (find_ci_suffix w s).
Qed.

Lemma word_seq_fails (fl : flags) (s w : string) (r : re) k :
  IGNORECASE fl = true -> find_ci w s = None ->
  forall g p, suffix_of (rest p) s -> run fl (Seq (Lit w) r) k g p = None.
Proof.
  intros Hi F g p S0. cbn [run]. now apply (word_fails fl s w).
Qed.

Lemma fails_along_suffix (k : cursor -> result) (s : string) :
  (forall p, suffix_of (rest p) s -> k p = None) ->
  forall pre t pv, suffix_of (pre ++ t) s -> fails_along k pv pre t.
Proof.
  intros K. induction pre as [|x pre IH]; intros t pv S0; [exact I|].
  rewrite app_cons in S0. split; [now apply K|].
  apply IH. now apply suffix_of_tail in S0.
Qed.

Lemma update_where_no_where (q : string) :
  find_ci "WHERE" q = None -> re_match IS_ update_where q = None.
Proof.
  intros F. unfold re_match, match_at, update_where.
  do 4 (apply (seq_fails IS_ q);
        [|first [eassumption | exact (suffix_of_refl q)]]; intros ? ? ?).
  now apply (word_seq_fails IS_ q).
Qed.

Lemma set_where_no_where (q : string) :
  find_ci "WHERE" q = None -> re_sub IS_ set_where " WHERE" q = q.
Proof.
  intros F. unfold re_sub. apply sub_from_id.
  apply (fails_along_suffix _ q); [|rewrite app_empty_r; apply suffix_of_refl].
  intros p S0. unfold match_at, set_where.
  do 4 (apply (seq_fails IS_ q); [|eassumption]; intros ? ? ?).
  now apply (word_fails IS_ q).
Qed.

(** X21.  An UPDATE with no WHERE in it has no preview that can run: the
    keyword UPDATE, in any letter case, at the very start of the text
    and with no word character after it, becomes [SELECT *], and the
    table name and the SET clause stay where they were. *)
Theorem convert_update_to_select_no_where (upd more : string) :
  lower_str upd = "update" -> stops isword more = true ->
  find_ci "WHERE" (upd ++ more) = None ->
  convert_update_to_select (upd ++ more) = "SELECT *" ++ more.
Proof.
  intros Hu Hm F. unfold convert_update_to_select.
  rewrite update_where_no_where by exact F.
  assert (Fm : find_ci "WHERE" more = None).
  { apply (find_ci_suffix_none _ _ _ F). now exists upd. }
  assert (E : re_sub I_ update_head "SELECT *" (upd ++ more) = "SELECT *" ++ more).
  { destruct upd as [|x upd]; [discriminate|]. unfold re_sub.
    erewrite (sub_from_hit I_ update_head "SELECT *" x upd more).
    - f_equal. destruct (last_of_some x upd None) as [c Hc]. simpl in Hc.
      rewrite Hc. unfold update_head. now apply sub_from_anchored.
    - unfold match_at, update_head. cbn [run at_bol prev IGNORECASE I_].
      rewrite (lit_ci "UPDATE" (String x upd)) by (rewrite Hu; reflexivity).
      unfold at_wordb.
      rewrite word_before_keyword by (try rewrite Hu; (reflexivity || congruence)).
      rewrite word_after_stops, Hm. reflexivity. }
  rewrite E. apply set_where_no_where.
  norm_app. simpl. now rewrite Fm.
Qed.

Lemma convert_update_to_select_no_where_witness :
  convert_update_to_select ("update" ++ " t SET a = 1") = "SELECT *" ++ " t SET a = 1".
Proof.
  apply (convert_update_to_select_no_where "update" " t SET a = 1");
    vm_compute; reflexivity.
Defined.

(** X22.  A text with no WHERE in it that does not open with UPDATE, in
    any letter case, is its own UPDATE preview. *)
Theorem convert_update_to_select_other (q : string) :
  starts_ci "UPDATE" q = false -> find_ci "WHERE" q = None ->
  convert_update_to_select q = q.
Proof.
  intros H F. unfold convert_update_to_select.
  rewrite update_where_no_where by exact F.
  assert (E : re_sub I_ update_head "SELECT *" q = q).
  { unfold re_sub. destruct q as [|x q]; [reflexivity|]. cbn [sub_from].
    assert (M : match_at I_ update_head (Cursor None (String x q)) = None).
    { unfold match_at, update_head. cbn [run at_bol prev IGNORECASE I_].
      now apply lit_none. }
    rewrite M. f_equal. unfold update_head. now apply sub_from_anchored. }
  rewrite E. now apply set_where_no_where.
Qed.

Lemma convert_update_to_select_other_witness :
  convert_update_to_select "  UPDATE t SET a = 1" = "  UPDATE t SET a = 1".
Proof.
  apply (convert_update_to_select_other "  UPDATE t SET a = 1"); reflexivity.
Defined.

(** ** The limit of a preview *)

Lemma limit_word_found (pre l post : string) :
  lower_str l = "limit" -> stops isword post = true ->
  found (re_search I_ PreviewService.limit_word (pre ++ l ++ post)) = true.
Proof.
  intros Hl Hp. unfold re_search. apply found_search_at.
  unfold match_at, PreviewService.limit_word. cbn [run IGNORECASE I_].
  rewrite (lit_ci "LIMIT" l) by (rewrite Hl; reflexivity).
  unfold at_wordb.
  rewrite word_before_keyword
    by (try rewrite Hl; (reflexivity || (destruct l; simpl in *; congruence))).
  rewrite word_after_stops, Hp. reflexivity.
Qed.

Lemma with_limit_found (q : string) (n : Z) :
  found (re_search I_ PreviewService.limit_word (PreviewService.with_limit q n)) = true.
Proof.
  unfold PreviewService.with_limit.
  destruct (found (re_search I_ PreviewService.limit_word q)) eqn:E;
    [exact E|]. cbn [negb].
  destruct (found (re_search I_ PreviewService.compound_word q)).
  - replace ("(" ++ q ++ ") LIMIT " ++ str_of_int n)
      with (("(" ++ q ++ ") ") ++ "LIMIT" ++ (" " ++ str_of_int n))
      by (norm_app; reflexivity).
    now apply limit_word_found.
  - replace (rstrip_semicolons q ++ " LIMIT " ++ str_of_int n)
      with ((rstrip_semicolons q ++ " ") ++ "LIMIT" ++ (" " ++ str_of_int n))
      by (norm_app; reflexivity).
    now apply limit_word_found.
Qed.

(** X23.  The text a limited preview hands to the executor always has
    the word LIMIT in it, so the limit is added once: limiting a text
    that was limited already, with any bound, changes nothing. *)
Theorem with_limit_once (q : string) (n m : Z) :
  found (re_search I_ PreviewService.limit_word (PreviewService.with_limit q n)) = true
  /\ PreviewService.with_limit (PreviewService.with_limit q n) m
     = PreviewService.with_limit q n.
Proof.
  split; [apply with_limit_found|].
  unfold PreviewService.with_limit at 1. now rewrite with_limit_found.
Qed.

(** X24.  The test for a limit is made on the text as given and asks for
    no word boundary before LIMIT: the letters [limit] at the end of any
    word, in a name or in a comment, are taken for a limit, and the text
    is handed on with no limit added. *)
Theorem with_limit_kept (a l b : string) (n : Z) :
  lower_str l = "limit" -> stops isword b = true ->
  PreviewService.with_limit (a ++ l ++ b) n = a ++ l ++ b.
Proof.
  intros Hl Hb. unfold PreviewService.with_limit.
  now rewrite limit_word_found.
Qed.

Lemma with_limit_kept_witness :
  PreviewService.with_limit ("SELECT * FROM orders WHERE no" ++ "limit" ++ " = 1") 10
  = "SELECT * FROM orders WHERE no" ++ "limit" ++ " = 1".
Proof.
  apply (with_limit_kept "SELECT * FROM orders WHERE no" "limit" " = 1" 10);
    reflexivity.
Defined.

(** ** The calls of a preview *)

Lemma preview_query_cases (session : AsyncSession) (q : string)
    (w : world session) :
  let r := invoke (QueryExecutor.preview_query session q) w in
  let ty := snd (validate_generated_query q) in
  let t := if QueryExecutor.is_type ty "UPDATE" then convert_update_to_select q
           else if QueryExecutor.is_type ty "DELETE"
                then convert_delete_to_select q else q in
  (~ passes_denylist q
   /\ log_of r = []
   /\ exists d, answer r = Returns d /\ get d "success" = Some (PBool false))
  \/ (passes_denylist q
      /\ ((log_of r = [ Event (Execute t) false; Event Fetchall false;
                        Event (Execute t) false; Event Fetchall false ]
           /\ exists d, answer r = Returns d
                        /\ get d "success" = Some (PBool true))
          \/ (In (log_of r)
                 [ [ Event (Execute t) true ];
                   [ Event (Execute t) false; Event Fetchall true ];
                   [ Event (Execute t) false; Event Fetchall false;
                     Event (Execute t) true ];
                   [ Event (Execute t) false; Event Fetchall false;
                     Event (Execute t) false; Event Fetchall true ] ]
              /\ ((exists d, answer r = Returns d
                             /\ get d "success" = Some (PBool false))
                  \/ exists e, answer r = RaisesBase e)))).
Proof.
  cbv zeta. unfold passes_denylist, QueryExecutor.preview_query,
    validate_preview_query, validate_query.
  destruct (first_dangerous DANGEROUS_PATTERNS (strip_comments q)) as [m|] eqn:D;
    cbn [negb].
  - left. split; [discriminate|]. split; [reflexivity|].
    eexists. split; reflexivity.
  - set (ty := snd (validate_generated_query q)).
    set (t := if QueryExecutor.is_type ty "UPDATE" then convert_update_to_select q
              else if QueryExecutor.is_type ty "DELETE"
                   then convert_delete_to_select q else q).
    clearbody t. clearbody ty.
    unfold invoke, answer, log_of, execute_preview_query, try_except, bind,
      execute, fetchall, ask, ret.
    right. split; [reflexivity|].
    repeat next_answer;
      first [ left; split; [reflexivity|]; eexists; split; reflexivity
            | right; split; [cbn; tauto|];
              first [ left; eexists; split; reflexivity
                    | right; eexists; reflexivity ] ].
Qed.



Lemma preview_query_no_exception (session : AsyncSession) (q : string)
    (s s' : world session * list event) (e : string) :
  QueryExecutor.preview_query session q s <> (s', Raises e).
Proof.
  unfold QueryExecutor.preview_query.
  destruct (validate_preview_query q) as [is_valid error].
  destruct (negb is_valid); [discriminate|].
  match goal with
  | |- context [execute_preview_query session ?x] => generalize x
  end.
  intros t. destruct s as [w log].
  unfold execute_preview_query, try_except, bind, execute, fetchall, ask, ret.
  repeat next_answer; discriminate.
Qed.

(** X26.  The two handlers of [PreviewService] never run: the executor
    lets no [Exception] of the session through, and what is not one
    goes through the service as it does through the executor.  So a
    preview of the service is the preview of the executor, with the same
    answer, the same calls and the same state of the session, and a
    limited preview is that of the executor on the text with the
    limit. *)
Theorem preview_service_is_executor (session : AsyncSession) (q : string)
    (limit : Z) (s : world session * list event) :
  PreviewService.preview_query session q s
  = QueryExecutor.preview_query session q s
  /\ PreviewService.preview_with_limit session q limit s
     = QueryExecutor.preview_query session (PreviewService.with_limit q limit) s.
Proof.
  unfold PreviewService.preview_query, PreviewService.preview_with_limit,
    try_except, bind, ret.
  split.
  - destruct (QueryExecutor.preview_query session q s) as [s' [d|e|e]] eqn:E;
      [reflexivity | | reflexivity].
    now apply preview_query_no_exception in E.
  - destruct (QueryExecutor.preview_query session
                (PreviewService.with_limit q limit) s) as [s' [d|e|e]] eqn:E;
      [reflexivity | | reflexivity].
    now apply preview_query_no_exception in E.
Qed.

Lemma first_call (t : string) (log : list event) :
  In log
    [ [ Event (Execute t) true ];
      [ Event (Execute t) false; Event Fetchall true ];
      [ Event (Execute t) false; Event Fetchall false; Event (Execute t) true ];
      [ Event (Execute t) false; Event Fetchall false;
        Event (Execute t) false; Event Fetchall true ] ] ->
  (exists raised more, log = Event (Execute t) raised :: more)
  /\ sends_only t log.
Proof.
  intros I. cbn in I.
  destruct I as [<- | [<- | [<- | [<- | []]]]];
    (split; [now eexists _, _|]);
    repeat constructor; cbn; intros s E; congruence.
Qed.

Lemma preview_query_sends (session : AsyncSession) (q : string)
    (w : world session) :
  passes_denylist q ->
  let r := invoke (QueryExecutor.preview_query session q) w in
  let ty := snd (validate_generated_query q) in
  let t := if QueryExecutor.is_type ty "UPDATE" then convert_update_to_select q
           else if QueryExecutor.is_type ty "DELETE"
                then convert_delete_to_select q else q in
  (exists raised more, log_of r = Event (Execute t) raised :: more)
  /\ sends_only t (log_of r).
Proof.
  intros P. cbv zeta.
  destruct (preview_query_cases session q w) as [[N _] | [_ C]];
    [contradiction|].
  destruct C as [[-> _] | [I _]]; [|now apply first_call].
  split; [now eexists _, _|].
  repeat constructor; cbn; intros s E; congruence.
Qed.

(** X27.  A DELETE that is refused for want of a WHERE clause is
    previewed as it stands: the refusal leaves the preview without a
    statement kind, no SELECT is put in its place, and the first call of
    the preview sends the DELETE itself to the session. *)
Theorem preview_sends_refused_delete (session : AsyncSession) (q : string)
    (e : option string) (w : world session) :
  passes_denylist q -> require_where_for_delete q = (false, e) ->
  exists raised more,
    log_of (invoke (QueryExecutor.preview_query session q) w)
    = Event (Execute q) raised :: more.
Proof.
  intros P R. destruct (preview_query_sends session q w P) as [S0 _].
  cbv zeta in S0.
  assert (T : snd (validate_generated_query q) = None).
  { unfold validate_generated_query. unfold passes_denylist in P.
    rewrite P, R. reflexivity. }
  rewrite T in S0. exact S0.
Qed.

Lemma preview_sends_refused_delete_witness :
  exists raised more,
    log_of (invoke (QueryExecutor.preview_query (commit_fails_first true)
                      "DELETE FROM users") 0)
    = Event (Execute "DELETE FROM users") raised :: more.
Proof.
  apply (preview_sends_refused_delete (commit_fails_first true) "DELETE FROM users"
           (Some "DELETE statements must include a WHERE clause") 0);
    vm_compute; reflexivity.
Defined.

(** X28.  The preview of an accepted DELETE never sends a DELETE: for a
    text that opens with DELETE, white space and FROM, every statement
    the preview sends is [SELECT * FROM] followed by the rest of the
    text, and one such statement at least is sent. *)
Theorem preview_of_delete_selects (session : AsyncSession)
    (d ws f more : string) (w : world session) :
  validate_generated_query (d ++ ws ++ f ++ more) = (true, None, Some "DELETE") ->
  lower_str d = "delete" -> blank ws = true -> lower_str f = "from" ->
  stops isword more = true ->
  let r := invoke (QueryExecutor.preview_query session (d ++ ws ++ f ++ more)) w in
  sends_only ("SELECT * FROM" ++ more) (log_of r)
  /\ exists raised rest, log_of r = Event (Execute ("SELECT * FROM" ++ more)) raised :: rest.
Proof.
  intros V Hd Hws Hf Hm. cbv zeta.
  assert (P : passes_denylist (d ++ ws ++ f ++ more)).
  { destruct (validate_generated_query_cases (d ++ ws ++ f ++ more))
      as [(t & _ & _ & _ & P) | (m & V' & _)]; [exact P|congruence]. }
  destruct (preview_query_sends session _ w P) as [S0 S1]. cbv zeta in S0, S1.
  rewrite V in S0, S1. cbn [snd QueryExecutor.is_type] in S0, S1.
  change (String.eqb "DELETE" "UPDATE") with false in S0, S1.
  change (String.eqb "DELETE" "DELETE") with true in S0, S1. cbv iota in S0, S1.
  assert (C : convert_delete_to_select (d ++ ws ++ f ++ more) = "SELECT * FROM" ++ more)
    by now apply delete_head_conversion.
  rewrite C in S0, S1. split; assumption.
Qed.

Lemma preview_of_delete_selects_witness :
  let r := invoke (QueryExecutor.preview_query (commit_fails_first true)
                     ("DELETE" ++ " " ++ "FROM" ++ " users WHERE id = 7")) 0 in
  sends_only ("SELECT * FROM" ++ " users WHERE id = 7") (log_of r)
  /\ exists raised rest,
      log_of r = Event (Execute ("SELECT * FROM" ++ " users WHERE id = 7")) raised :: rest.
Proof.
  apply (preview_of_delete_selects (commit_fails_first true)
           "DELETE" " " "FROM" " users WHERE id = 7" 0); vm_compute; reflexivity.
Defined.

(** ** The limit of a SELECT that ends in a comment *)

Lemma find_str_dashes (a c c' : string) :
  find_str "--" (a ++ "--" ++ c) = Some (String.length a) ->
  find_str "--" (a ++ "--" ++ c') = Some (String.length a).
Proof.
  induction a as [|x a IH]; intros F; [reflexivity|].
  rewrite app_cons in F |- *. cbn [find_str] in F |- *.
  destruct (starts_with "--" (String x (a ++ "--" ++ c))) eqn:S0; [discriminate|].
  assert (S1 : starts_with "--" (String x (a ++ "--" ++ c')) = false).
  { destruct a as [|y a]; norm_app; norm_app_in S0; exact S0. }
  rewrite S1. destruct (find_str "--" (a ++ "--" ++ c)) as [k|] eqn:F1; [|discriminate].
  simpl in F. injection F as ->. now rewrite (IH eq_refl).
Qed.

Lemma all_in_app (m : ascii -> bool) (s t : string) :
  all_in m (s ++ t) = all_in m s && all_in m t.
Proof.
  induction s as [|x s IH]; [reflexivity|]. rewrite app_cons. simpl.
  now rewrite IH, andb_assoc.
Qed.

Lemma str_of_int_same_line (n : Z) : all_in same_line (str_of_int n) = true.
Proof.
  unfold str_of_int.
  assert (G : forall d, all_in same_line (NilEmpty.string_of_uint d) = true).
  { induction d; simpl; auto. }
  assert (U : forall d, all_in same_line (NilZero.string_of_uint d) = true).
  { intros d. destruct d; try apply G. reflexivity. }
  destruct (Z.to_int n) as [d|d]; simpl; auto.
Qed.

Lemma line_tail_limit (a c : string) (n : Z) :
  find_str "--" (a ++ "--" ++ c) = Some (String.length a) ->
  all_in same_line c = true ->
  str_in "/*" a = false ->
  strip_comments ((a ++ "--" ++ c) ++ " LIMIT " ++ str_of_int n) = a.
Proof.
  intros F C B.
  replace ((a ++ "--" ++ c) ++ " LIMIT " ++ str_of_int n)
    with (a ++ "--" ++ (c ++ " LIMIT " ++ str_of_int n))
    by (now rewrite !app_assoc_str).
  apply strip_comments_line_tail; [|
    rewrite !all_in_app, C, str_of_int_same_line; reflexivity | exact B].
  now apply (find_str_dashes a c).
Qed.

Lemma rstrip_cons_kept (p : ascii -> bool) (x : ascii) (t : string) :
  p x = false -> rstrip p (String x t) = String x (rstrip p t).
Proof. intros Px. simpl. rewrite Px. now destruct (rstrip p t). Qed.

Lemma rstrip_app_kept (p : ascii -> bool) (s u : string) :
  rstrip p u <> "" -> rstrip p (s ++ u) = s ++ rstrip p u.
Proof.
  intros N. induction s as [|x s IH]; [reflexivity|].
  rewrite !app_cons. simpl. rewrite IH.
  destruct (s ++ rstrip p u) eqn:E; [|reflexivity].
  destruct s; [rewrite app_empty_l in E; congruence | rewrite app_cons in E; discriminate].
Qed.

Lemma all_in_rstrip (m p : ascii -> bool) (s : string) :
  all_in m s = true -> all_in m (rstrip p s) = true.
Proof.
  induction s as [|x s IH]; [reflexivity|]. simpl. intros A.
  apply andb_prop in A as [Mx A]. specialize (IH A).
  destruct (rstrip p s) eqn:R.
  - destruct (p x); [reflexivity|]. simpl. now rewrite Mx.
  - simpl in *. now rewrite Mx, IH.
Qed.

Lemma rstrip_after_dashes (a c : string) :
  rstrip_semicolons (a ++ "--" ++ c) = a ++ "--" ++ rstrip_semicolons c.
Proof.
  unfold rstrip_semicolons. rewrite rstrip_app_kept.
  - f_equal. norm_app. now rewrite !rstrip_cons_kept by reflexivity.
  - norm_app. rewrite rstrip_cons_kept by reflexivity. discriminate.
Qed.

(** X29.  The limit added to a SELECT that ends in a line comment is part
    of that comment.  For a text made of a SELECT without limit and a
    closing line comment, the limit is written after the comment, on its
    line: the result is the text, without the semicolons at its end,
    followed by the limit, and the comment-stripped form of the result
    is the SELECT as it was, so adding the limit again writes a second
    one. *)
Theorem injected_limit_in_comment (a c : string) (n m : Z) :
  find_str "--" (a ++ "--" ++ c) = Some (String.length a) ->
  all_in same_line c = true ->
  str_in "/*" a = false ->
  found (re_search I_ (leading "select") a) = true ->
  found (re_search I_ limit_kw a) = false ->
  found (re_search I_ compound_kw a) = false ->
  let q' := inject_limit_to_select (a ++ "--" ++ c) n in
  q' = rstrip_semicolons (a ++ "--" ++ c) ++ " LIMIT " ++ str_of_int n
  /\ rstrip_semicolons (a ++ "--" ++ c) = a ++ "--" ++ rstrip_semicolons c
  /\ strip_comments q' = a
  /\ inject_limit_to_select q' m
     = rstrip_semicolons q' ++ " LIMIT " ++ str_of_int m.
Proof.
  intros F C B Sel Lim Cmp. cbv zeta.
  assert (E : inject_limit_to_select (a ++ "--" ++ c) n
              = rstrip_semicolons (a ++ "--" ++ c) ++ " LIMIT " ++ str_of_int n).
  { unfold inject_limit_to_select.
    rewrite strip_comments_line_tail by assumption.
    now rewrite Sel, Lim, Cmp. }
  assert (S0 : strip_comments
                 (rstrip_semicolons (a ++ "--" ++ c) ++ " LIMIT " ++ str_of_int n)
               = a).
  { rewrite rstrip_after_dashes.
    replace (a ++ "--" ++ rstrip_semicolons c)
      with (a ++ "--" ++ rstrip (eqc ";") c) by reflexivity.
    apply line_tail_limit; [|now apply all_in_rstrip|exact B].
    now apply (find_str_dashes a c). }
  rewrite E. split; [reflexivity|]. split; [apply rstrip_after_dashes|].
  split; [exact S0|].
  unfold inject_limit_to_select at 1. rewrite S0. now rewrite Sel, Lim, Cmp.
Qed.

Lemma injected_limit_in_comment_witness :
  let q' := inject_limit_to_select ("SELECT * FROM t " ++ "--" ++ " all rows;") 100 in
  q' = rstrip_semicolons ("SELECT * FROM t " ++ "--" ++ " all rows;")
       ++ " LIMIT " ++ str_of_int 100
  /\ rstrip_semicolons ("SELECT * FROM t " ++ "--" ++ " all rows;")
     = "SELECT * FROM t " ++ "--" ++ rstrip_semicolons " all rows;"
  /\ strip_comments q' = "SELECT * FROM t "
  /\ inject_limit_to_select q' 5
     = rstrip_semicolons q' ++ " LIMIT " ++ str_of_int 5.
Proof.
  apply (injected_limit_in_comment "SELECT * FROM t " " all rows;" 100 5);
    vm_compute; reflexivity.
Defined.

(** ** One effect for each write *)

(** X30.  Of the commits and rollbacks one call of the write path asks
    for, one at most goes through, whatever the session answers. *)
Theorem execute_with_transaction_single_effect (session : AsyncSession)
    (query : string) (w : world session) :
  let log := log_of (invoke (execute_with_transaction session query) w) in
  count committed log + count rolled_back log <= 1.
Proof. exact (execute_with_transaction_one_effect session query w). Qed.
